(** * The environment-monitoring engine of claude-autonomous-dev

    A shallow embedding of the [ClaudeAuto] class (the lightweight core
    with terminal monitoring): the log-line classifier [parseLogLine], the
    TTL cache [getCache]/[setCache], the process probe
    [scanProcesses]/[canStart], the readiness score [calculateReadiness],
    the snapshot differ [detectStateChanges] and the monitoring entry point
    [startMonitoring].

    JavaScript strings are sequences of UTF-16 code units, objects used as
    dictionaries and [Map]s are association lists in insertion order,
    [Date.now()] is an explicit argument, and a thrown exception is the
    [Err] result of a function that otherwise returns [Ok]. *)

From Stdlib Require Import String Ascii DecimalString.
From Stdlib Require Import List ZArith NArith Bool Lia.
From Stdlib Require Import Sorted.
Import ListNotations.

Set Implicit Arguments.

(* ================================================================== *)
(** * JavaScript strings *)
(* ================================================================== *)

Module JS.

(** A string is the list of its UTF-16 code units. *)
Definition jsstring := list N.

(** The literals of the source are ASCII. *)
Definition str (s : string) : jsstring :=
  map N_of_ascii (list_ascii_of_string s).

Fixpoint eqb (a b : jsstring) : bool :=
  match a, b with
  | [], [] => true
  | x :: a', y :: b' => N.eqb x y && eqb a' b'
  | _, _ => false
  end.

(** [WhiteSpace] and [LineTerminator] code points: what [\s] matches and
    what [String.prototype.trim] strips. *)
Definition isSpace (c : N) : bool :=
  existsb (N.eqb c)
    [9; 10; 11; 12; 13; 32; 160; 5760; 8232; 8233; 8239; 8287; 12288; 65279]%N
  || (N.leb 8192 c && N.leb c 8202).

(** [\d] *)
Definition isDigit (c : N) : bool := N.leb 48 c && N.leb c 57.

Fixpoint dropWhile (f : N -> bool) (s : jsstring) : jsstring :=
  match s with
  | [] => []
  | c :: r => if f c then dropWhile f r else s
  end.

Fixpoint takeWhile (f : N -> bool) (s : jsstring) : jsstring :=
  match s with
  | [] => []
  | c :: r => if f c then c :: takeWhile f r else []
  end.

Definition trim (s : jsstring) : jsstring :=
  rev (dropWhile isSpace (rev (dropWhile isSpace s))).

(** Upper-casing of an ASCII letter. *)
Definition upperAscii (c : N) : N :=
  if N.leb 97 c && N.leb c 122 then (c - 32)%N else c.

(** How a pattern character [p] of an [/i] regular expression (without the
    [u] flag) matches an input code unit [c], for an ASCII [p]: the
    canonical form of a code unit above 127 is never an ASCII one, so only
    ASCII input matches, up to letter case. *)
Definition ciEq (p c : N) : bool :=
  N.ltb c 128 && N.eqb (upperAscii c) (upperAscii p).

(** [startsWithBy eq pat s]: [pat] matches at the start of [s]. *)
Fixpoint startsWithBy (eq : N -> N -> bool) (pat s : jsstring) : bool :=
  match pat, s with
  | [], _ => true
  | _ :: _, [] => false
  | p :: pat', c :: s' => eq p c && startsWithBy eq pat' s'
  end.

(** [searchBy eq pat s]: [pat] matches at some position of [s]. *)
Fixpoint searchBy (eq : N -> N -> bool) (pat s : jsstring) : bool :=
  startsWithBy eq pat s ||
  match s with
  | [] => false
  | _ :: s' => searchBy eq pat s'
  end.

(** [s.includes(pat)] *)
Definition includes (s pat : jsstring) : bool := searchBy N.eqb pat s.

(** [/k1|k2|...|kn/i.test(s)] for literal ASCII alternatives. *)
Definition testAnyCI (alts : list jsstring) (s : jsstring) : bool :=
  existsb (fun k => searchBy ciEq k s) alts.

(** [s.split(sep)] for a separator of one code unit; [cur] is the piece
    being read, reversed. *)
Fixpoint splitOn (sep : N) (cur s : jsstring) : list jsstring :=
  match s with
  | [] => [rev cur]
  | c :: r =>
      if N.eqb c sep then rev cur :: splitOn sep [] r
      else splitOn sep (c :: cur) r
  end.

(** [s.split(/\s+/)]: every maximal run of white space separates two
    pieces; [inRun] tells that the previous code unit was white space. *)
Fixpoint splitSpaces (cur : jsstring) (inRun : bool) (s : jsstring)
  : list jsstring :=
  match s with
  | [] => [rev cur]
  | c :: r =>
      if isSpace c then
        if inRun then splitSpaces cur true r
        else rev cur :: splitSpaces [] true r
      else splitSpaces (c :: cur) false r
  end.

(** [parts.join(sep)] *)
Fixpoint join (sep : jsstring) (parts : list jsstring) : jsstring :=
  match parts with
  | [] => []
  | [x] => x
  | x :: r => x ++ sep ++ join sep r
  end.

(** The template literal [`${n}`] of an integer. *)
Definition ofZ (n : Z) : jsstring := str (NilZero.string_of_int (Z.to_int n)).

End JS.

Import JS.

(* ================================================================== *)
(** * Classifier: [parseLogLine] *)
(* ================================================================== *)

Module Classifier.

Inductive LineType := error | warning | success | url | info.

Inductive Severity := sev_critical | sev_error | sev_warning.

(** The object [parseLogLine] returns; a property the source leaves out is
    [None]. *)
Record Analysis := {
  type : LineType;
  message : jsstring;
  severity : option Severity;
  url_of : option jsstring
}.

Definition errorWords : list jsstring :=
  [str "error"; str "failed"; str "exception"; str "fatal"; str "crash"].
Definition criticalWords : list jsstring := [str "fatal"; str "crash"].
Definition warningWords : list jsstring :=
  [str "warn"; str "warning"; str "deprecated"].
Definition successWords : list jsstring :=
  [str "success"; str "compiled"; str "ready"; str "listening";
   str "started"; str "built"; str "complete"].

(** [/https?:\/\/[^\s]+/] matched at the start of [s]: the matched text. *)
Definition urlBody (scheme rest : jsstring) : option jsstring :=
  if startsWithBy N.eqb (str "://") rest then
    match takeWhile (fun c => negb (isSpace c)) (skipn 3 rest) with
    | [] => None
    | body => Some (scheme ++ str "://" ++ body)
    end
  else None.

Definition urlAt (s : jsstring) : option jsstring :=
  if startsWithBy N.eqb (str "http") s then
    let rest := skipn 4 s in
    match
      (if startsWithBy N.eqb (str "s") rest
       then urlBody (str "https") (skipn 1 rest) else None)
    with
    | Some u => Some u
    | None => urlBody (str "http") rest
    end
  else None.

(** [line.match(/https?:\/\/[^\s]+/)]: the leftmost match. *)
Fixpoint urlMatch (s : jsstring) : option jsstring :=
  match urlAt s with
  | Some u => Some u
  | None => match s with [] => None | _ :: r => urlMatch r end
  end.

(** [parseLogLine(line)]; the unused [lowerLine] is left out. *)
Definition parseLogLine (line : jsstring) : Analysis :=
  if testAnyCI errorWords line then
    {| type := error; message := trim line;
       severity := Some (if testAnyCI criticalWords line
                         then sev_critical else sev_error);
       url_of := None |}
  else if testAnyCI warningWords line then
    {| type := warning; message := trim line;
       severity := Some sev_warning; url_of := None |}
  else if testAnyCI successWords line then
    {| type := success; message := trim line;
       severity := None; url_of := None |}
  else
    match urlMatch line with
    | Some u =>
        {| type := url; message := trim line;
           severity := None; url_of := Some u |}
    | None =>
        {| type := info; message := trim line;
           severity := None; url_of := None |}
    end.

End Classifier.

(* ================================================================== *)
(** * JavaScript [Map]s and dictionary objects *)
(* ================================================================== *)

(** A [Map] with string keys, and an object used as a dictionary, as the
    list of its entries in the order [keys()] and [Object.keys] enumerate
    them. For a [Map], and for an object whose keys are names (the roles
    and endpoints here, not array indices), that is insertion order:
    writing an existing key keeps its place, a new key goes last. The
    entries are the own properties; an object has [Object.prototype] as
    its prototype, which the program leaves as the language defines it. *)
Module JsMap.

(** The names of the properties of [Object.prototype], which every such
    object inherits. *)
Definition objectPrototypeKeys : list jsstring :=
  [str "constructor"; str "__defineGetter__"; str "__defineSetter__";
   str "hasOwnProperty"; str "__lookupGetter__"; str "__lookupSetter__";
   str "isPrototypeOf"; str "propertyIsEnumerable"; str "toString";
   str "valueOf"; str "__proto__"; str "toLocaleString"].

Section JsMap.
Variable V : Type.

Definition t := list (jsstring * V).

Definition empty : t := [].

Fixpoint get (k : jsstring) (m : t) : option V :=
  match m with
  | [] => None
  | (k', v) :: r => if eqb k' k then Some v else get k r
  end.

Fixpoint set (k : jsstring) (v : V) (m : t) : t :=
  match m with
  | [] => [(k, v)]
  | (k', v') :: r => if eqb k' k then (k', v) :: r else (k', v') :: set k v r
  end.

Fixpoint delete (k : jsstring) (m : t) : t :=
  match m with
  | [] => []
  | (k', v') :: r => if eqb k' k then r else (k', v') :: delete k r
  end.

Definition size (m : t) : nat := length m.

(** [m.keys()], [Object.keys(o)] *)
Definition keys (m : t) : list jsstring := map fst m.

(** [Object.values(o)] *)
Definition values (m : t) : list V := map snd m.

(** [m.keys().next().value] *)
Definition firstKey (m : t) : option jsstring :=
  match m with
  | [] => None
  | (k, _) :: _ => Some k
  end.

(** What [o[k]] evaluates to on an object [o]: the own property [k]; or,
    without one, what [Object.prototype] holds under that name (a function,
    or the prototype itself for [__proto__]: an object without an entry's
    fields); or [undefined]. *)
Inductive Read :=
| own (v : V)
| inherited
| undefined.

Definition read (k : jsstring) (m : t) : Read :=
  match get k m with
  | Some v => own v
  | None =>
      if existsb (fun k' => eqb k' k) objectPrototypeKeys then inherited
      else undefined
  end.

End JsMap.

Arguments inherited {V}.
Arguments undefined {V}.

(** [keys.includes(k)] on an array of strings. *)
Definition arrayIncludes (ks : list jsstring) (k : jsstring) : bool :=
  existsb (fun k' => eqb k' k) ks.

End JsMap.

(* ================================================================== *)
(** * Cache: [getCache], [setCache] *)
(* ================================================================== *)

Module Cache.
Section Cache.
Variable V : Type.

(** [{ data, timestamp, timeout }] *)
Record Entry := { data : V; timestamp : Z; timeout : Z }.

Definition t := JsMap.t Entry.

(** [this.cacheTimeout] *)
Definition cacheTimeout : Z := 5000.

(** [a || b] on numbers: [0] is the falsy one. *)
Definition orElse (a b : Z) : Z := if Z.eqb a 0 then b else a.

(** [getCache(key)] at time [now]: the value returned ([None] for [null])
    and the table afterwards. *)
Definition getCache (cache : t) (key : jsstring) (now : Z) : option V * t :=
  match JsMap.get key cache with
  | Some entry =>
      let timeout := orElse (timeout entry) cacheTimeout in
      if Z.ltb (now - timestamp entry) timeout then (Some (data entry), cache)
      else (None, JsMap.delete key cache)
  | None => (None, cache)
  end.

(** [setCache(key, data, timeout = this.cacheTimeout)] at time [now]; an
    omitted [timeout] is [None]. *)
Definition setCache (cache : t) (key : jsstring) (data : V)
    (timeout : option Z) (now : Z) : t :=
  let timeout :=
    match timeout with Some x => x | None => cacheTimeout end in
  let cache :=
    JsMap.set key {| data := data; timestamp := now; timeout := timeout |}
      cache in
  if Nat.ltb 10 (JsMap.size cache) then
    match JsMap.firstKey cache with
    | Some oldestKey => JsMap.delete oldestKey cache
    | None => cache
    end
  else cache.

End Cache.
End Cache.

(* ================================================================== *)
(** * Snapshot facets *)
(* ================================================================== *)

Module Facets.

(** One entry of the object [scanProcesses] builds. A property the source
    does not set is [None]; [pid] is [parts[1]], absent when the [ps] line
    has a single field. *)
Record Process := {
  pid : option jsstring;
  proc_status : jsstring;
  proc_port : option jsstring;
  proc_type : jsstring;
  command : option jsstring
}.

(** One entry of the object [checkNetwork] builds. *)
Record NetStatus := {
  port : Z;
  status : jsstring;
  healthy : bool;
  framework : jsstring
}.

Record TypeScript := { ts_errors : Z; ts_clean : bool }.
Record Lint := { lint_errors : Z; warnings : Z; fixable : bool }.
Record Build := {
  build_success : bool;
  time : option Z;
  size : option jsstring
}.
Record Quality := { typescript : TypeScript; lint : Lint; build : Build }.

Record Git := { branch : jsstring; changedFiles : Z; git_clean : bool }.

Inductive Level := ready | partial | not_ready.

Definition Level_eqb (a b : Level) : bool :=
  match a, b with
  | ready, ready | partial, partial | not_ready, not_ready => true
  | _, _ => false
  end.

(** What [calculateReadiness] returns. *)
Record Readiness := {
  score : Z;
  level : Level;
  issues : list jsstring;
  critical : list jsstring
}.

End Facets.

(* ================================================================== *)
(** * Process probe: [extractPort], [scanProcesses], [canStart] *)
(* ================================================================== *)

Module Probes.
Import Facets.

(** [[\s=:]] *)
Definition isPortSep (c : N) : bool :=
  isSpace c || N.eqb c 61 || N.eqb c 58.

(** [/(?:--port|port|PORT)[\s=:]+(\d+)/] matched at the start of [s] after
    the keyword [kw]: the captured digits. *)
Definition portAfter (kw s : jsstring) : option jsstring :=
  if startsWithBy N.eqb kw s then
    let rest := skipn (List.length kw) s in
    match takeWhile isPortSep rest with
    | [] => None
    | _ :: _ =>
        match takeWhile isDigit (dropWhile isPortSep rest) with
        | [] => None
        | digits => Some digits
        end
    end
  else None.

Definition portAt (s : jsstring) : option jsstring :=
  match portAfter (str "--port") s with
  | Some d => Some d
  | None =>
      match portAfter (str "port") s with
      | Some d => Some d
      | None => portAfter (str "PORT") s
      end
  end.

(** [command.match(...)]: the leftmost match, its group 1. *)
Fixpoint portMatch (s : jsstring) : option jsstring :=
  match portAt s with
  | Some d => Some d
  | None => match s with [] => None | _ :: r => portMatch r end
  end.

(** [extractPort(command)] *)
Definition extractPort (command : jsstring) : jsstring :=
  match portMatch command with
  | Some p => p
  | None =>
      if includes command (str "astro") then str "4321"
      else if includes command (str "vite") then str "5173"
      else if includes command (str "next") then str "3000"
      else if includes command (str "react")
              && negb (includes command (str "next")) then str "3000"
      else if includes command (str "convex") then str "3210"
      else if includes command (str "nuxt") then str "3000"
      else if includes command (str "svelte") then str "5173"
      else if includes command (str "vue") then str "8080"
      else str "unknown"
  end.

(** [a || b] on strings: the empty string is the falsy one. *)
Definition orStr (a b : jsstring) : jsstring :=
  match a with [] => b | _ :: _ => a end.

(** The body of the loop of [scanProcesses] for one line of [ps] output. *)
Definition scanLine (processes : JsMap.t Process) (line : jsstring)
  : JsMap.t Process :=
  let parts := splitSpaces [] false line in
  let pid := nth_error parts 1 in
  let command := join (str " ") (skipn 10 parts) in
  let has := includes command in
  if has (str "turbo") && has (str "dev") then
    JsMap.set (str "turbo")
      {| pid := pid; proc_status := str "running"; proc_port := None;
         proc_type := str "monorepo-dev"; command := Some (trim command) |}
      processes
  else if has (str "astro") && has (str "dev") then
    JsMap.set (str "astro")
      {| pid := pid; proc_status := str "running";
         proc_port := Some (orStr (extractPort command) (str "4321"));
         proc_type := str "astro-dev"; command := None |}
      processes
  else if has (str "vite")
          || (has (str "npm") && has (str "dev") && negb (has (str "next")))
  then
    let port := orStr (extractPort command) (str "5173") in
    JsMap.set (str "vite")
      {| pid := pid; proc_status := str "running"; proc_port := Some port;
         proc_type := str "vite-dev"; command := None |}
      processes
  else if has (str "next")
          || (has (str "npm") && has (str "dev") && has (str "next"))
  then
    JsMap.set (str "next")
      {| pid := pid; proc_status := str "running";
         proc_port := Some (str "3000");
         proc_type := str "next-dev"; command := None |}
      processes
  else if has (str "convex") then
    let convexType :=
      if has (str "convex dev") then str "local" else str "cloud" in
    JsMap.set (str "convex")
      {| pid := pid; proc_status := str "running";
         proc_port := Some (str "3210");
         proc_type := convexType; command := None |}
      processes
  else if has (str "dev")
          && (has (str "npm") || has (str "yarn") || has (str "pnpm"))
  then
    JsMap.set (str "dev")
      {| pid := pid; proc_status := str "running";
         proc_port := Some (orStr (extractPort command) (str "unknown"));
         proc_type := str "generic-dev"; command := None |}
      processes
  else processes.

(** [scanProcesses()]. The outcome of the [ps aux | grep ... | head -15]
    command is the argument: [Some stdout] when it ran, [None] when
    [execAsync] rejected; the [catch] then returns the empty object. *)
Definition scanProcesses (ps : option jsstring) : JsMap.t Process :=
  match ps with
  | Some stdout =>
      let lines :=
        filter (fun line => Nat.ltb 0 (List.length line))
               (splitOn 10 [] (trim stdout)) in
      fold_left scanLine lines (JsMap.empty Process)
  | None => JsMap.empty Process
  end.

(** [canStart()] *)
Definition canStart (ps : option jsstring) : bool :=
  let processes := scanProcesses ps in
  Nat.eqb (List.length (JsMap.keys processes)) 0.

End Probes.

(* ================================================================== *)
(** * Readiness: [calculateReadiness] *)
(* ================================================================== *)

Module Scoring.
Import Facets.

(** [calculateReadiness(processes, network, quality, git)]; the pair is
    the running [score] and the [issues] pushed so far. *)
Definition calculateReadiness (processes : JsMap.t Process)
    (network : JsMap.t NetStatus) (quality : Quality) (git : Git)
  : Readiness :=
  let st := (0%Z, @nil jsstring) in
  (* TypeScript (40% weight) *)
  let st :=
    if ts_clean (typescript quality) then (fst st + 40, snd st)%Z
    else if Z.ltb 0 (ts_errors (typescript quality)) then
      (fst st,
       snd st ++ [ofZ (ts_errors (typescript quality))
                    ++ str " TypeScript errors"])
    else st in
  (* Build (30% weight) *)
  let st :=
    if build_success (build quality) then (fst st + 30, snd st)%Z
    else (fst st, snd st ++ [str "Build failing"]) in
  (* Lint (20% weight) *)
  let st :=
    if Z.eqb (lint_errors (lint quality)) 0 then (fst st + 20, snd st)%Z
    else if Z.ltb (lint_errors (lint quality)) 10 then
      (fst st + 10,
       if fixable (lint quality)
       then snd st ++ [ofZ (lint_errors (lint quality))
                         ++ str " fixable lint errors"]
       else snd st)%Z
    else
      (fst st,
       snd st ++ [ofZ (lint_errors (lint quality)) ++ str " lint errors"]) in
  (* Development environment (10% weight) *)
  let hasRunningDev := Nat.ltb 0 (List.length (JsMap.keys processes)) in
  let hasHealthyNetwork := existsb healthy (JsMap.values network) in
  let score :=
    if hasRunningDev && hasHealthyNetwork then (fst st + 10)%Z else fst st in
  let issues := snd st in
  let level :=
    if Z.leb 90 score then ready
    else if Z.leb 70 score then partial else not_ready in
  {| score := score; level := level; issues := issues;
     critical :=
       filter (fun i => includes i (str "TypeScript")
                        || includes i (str "Build")) issues |}.

End Scoring.

(* ================================================================== *)
(** * Exceptions *)
(* ================================================================== *)

Module Exn.

(** What a [throw] carries: a [TypeError] raised by the runtime on a
    property read of [undefined], or an [Error] with its message. *)
Inductive Error :=
| TypeError
| Error_ (message : jsstring).

Inductive Result (A : Type) :=
| Ok (a : A)
| Err (e : Error).
Arguments Ok {A} a.
Arguments Err {A} e.

Definition bind {A B} (r : Result A) (k : A -> Result B) : Result B :=
  match r with
  | Ok a => k a
  | Err e => Err e
  end.

End Exn.

(* ================================================================== *)
(** * Differ: [detectStateChanges] *)
(* ================================================================== *)

Module Differ.
Import Facets Exn.

Section Differ.
(** The monorepo description is carried by a snapshot and never read by the
    differ. *)
Variable Structure : Type.

(** The object [scan] assembles. [detectStateChanges] guards against a
    missing [processes], [network] or [readiness], so these three are
    optional here; [scan] always sets them. *)
Record Snapshot := {
  timestamp : Z;
  monorepo : Structure;
  processes : option (JsMap.t Process);
  network : option (JsMap.t NetStatus);
  quality : Quality;
  git : Git;
  readiness : option Readiness
}.

(** The objects pushed to [changes], by their [type] tag:
    ['process:crashed'], ['process:started'], ['network:down'],
    ['network:up'], ['readiness:changed']. A [pid] or [port] that reads
    as [undefined] is [None]. *)
Inductive Change :=
| process_crashed (process : jsstring) (pid : option jsstring)
| process_started (process : jsstring) (pid : option jsstring)
| network_down (endpoint : jsstring) (port : option Z)
| network_up (endpoint : jsstring) (port : option Z)
| readiness_changed (from to : Level) (score : Z).

(** [o || {}] *)
Definition orEmpty {V} (o : option (JsMap.t V)) : JsMap.t V :=
  match o with Some m => m | None => JsMap.empty V end.

(** [before.processes[processName].pid] for a key of [before.processes]. *)
Definition pidOf (m : JsMap.t Process) (k : jsstring)
  : Result (option jsstring) :=
  match JsMap.get k m with
  | Some p => Ok (pid p)
  | None => Err TypeError
  end.

(** The first loop: processes that stopped. *)
Fixpoint crashed (beforeProcesses afterProcesses : list jsstring)
    (before : JsMap.t Process) (changes : list Change)
  : Result (list Change) :=
  match beforeProcesses with
  | [] => Ok changes
  | processName :: rest =>
      if negb (JsMap.arrayIncludes afterProcesses processName) then
        bind (pidOf before processName) (fun p =>
        crashed rest afterProcesses before
          (changes ++ [process_crashed processName p]))
      else crashed rest afterProcesses before changes
  end.

(** The second loop: processes that started. *)
Fixpoint started (afterProcesses beforeProcesses : list jsstring)
    (after : JsMap.t Process) (changes : list Change)
  : Result (list Change) :=
  match afterProcesses with
  | [] => Ok changes
  | processName :: rest =>
      if negb (JsMap.arrayIncludes beforeProcesses processName) then
        bind (pidOf after processName) (fun p =>
        started rest beforeProcesses after
          (changes ++ [process_started processName p]))
      else started rest beforeProcesses after changes
  end.

(** [afterStatus.healthy] (as a condition) and [afterStatus.port], where
    [afterStatus] is [after.network[endpoint]]: reading a property of
    [undefined] throws; what is inherited from [Object.prototype] has
    neither property, so both read as [undefined], which is falsy. *)
Definition healthyOf (afterStatus : JsMap.Read NetStatus) : Result bool :=
  match afterStatus with
  | JsMap.own a => Ok (healthy a)
  | JsMap.inherited => Ok false
  | JsMap.undefined => Err TypeError
  end.

Definition portOf (afterStatus : JsMap.Read NetStatus)
  : Result (option Z) :=
  match afterStatus with
  | JsMap.own a => Ok (Some (port a))
  | JsMap.inherited => Ok None
  | JsMap.undefined => Err TypeError
  end.

(** The body of the network loop for one entry of [before.network]; [&&]
    evaluates its right operand only when the left one is truthy. *)
Definition networkEntry (endpoint : jsstring) (beforeStatus : NetStatus)
    (afterNetwork : JsMap.t NetStatus) (changes : list Change)
  : Result (list Change) :=
  let afterStatus := JsMap.read endpoint afterNetwork in
  bind (if healthy beforeStatus
        then bind (healthyOf afterStatus) (fun h => Ok (negb h))
        else Ok false) (fun wentDown =>
  if wentDown then
    bind (portOf afterStatus) (fun p =>
    Ok (changes ++ [network_down endpoint p]))
  else
    bind (if negb (healthy beforeStatus)
          then healthyOf afterStatus
          else Ok false) (fun cameUp =>
    if cameUp then
      bind (portOf afterStatus) (fun p =>
      Ok (changes ++ [network_up endpoint p]))
    else Ok changes)).

Fixpoint networkLoop (entries : list (jsstring * NetStatus))
    (afterNetwork : JsMap.t NetStatus) (changes : list Change)
  : Result (list Change) :=
  match entries with
  | [] => Ok changes
  | (endpoint, beforeStatus) :: rest =>
      bind (networkEntry endpoint beforeStatus afterNetwork changes)
           (networkLoop rest afterNetwork)
  end.

(** [detectStateChanges(before, after)] *)
Definition detectStateChanges (before after : Snapshot)
  : Result (list Change) :=
  let changes := [] in
  (* Check process changes *)
  let beforeProcesses := JsMap.keys (orEmpty (processes before)) in
  let afterProcesses := JsMap.keys (orEmpty (processes after)) in
  bind (crashed beforeProcesses afterProcesses
          (orEmpty (processes before)) changes) (fun changes =>
  bind (started afterProcesses beforeProcesses
          (orEmpty (processes after)) changes) (fun changes =>
  (* Check network changes *)
  bind (match network before, network after with
        | Some beforeNetwork, Some afterNetwork =>
            networkLoop beforeNetwork afterNetwork changes
        | _, _ => Ok changes
        end) (fun changes =>
  (* Check readiness changes *)
  match readiness before, readiness after with
  | Some beforeReadiness, Some afterReadiness =>
      if negb (Level_eqb (level beforeReadiness) (level afterReadiness)) then
        Ok (changes ++ [readiness_changed (level beforeReadiness)
                          (level afterReadiness) (score afterReadiness)])
      else Ok changes
  | _, _ => Ok changes
  end))).

End Differ.
End Differ.

(* ================================================================== *)
(** * Monitor: [scan], [startLogWatcher], [startMonitoring] *)
(* ================================================================== *)

Module Monitor.
Import Facets Exn.

Section Monitor.
Variable Structure : Type.

Definition Snapshot := Differ.Snapshot Structure.

(** The handle [spawn] returns for a [tail -f] process. *)
Definition Watcher := nat.

(** The handle [setInterval] returns, with the period it was armed with. *)
Record Timer := { timer_id : nat; every : Z }.

(** [this.emit(name, payload)] as done by [startMonitoring]. *)
Inductive Event :=
| monitoring_started (logFiles : list jsstring) (interval : Z) (timestamp : Z).

(** The instance fields of [ClaudeAuto] the monitor reads and writes, and
    the events emitted so far, oldest first. Of the cache, the entry that
    [scan] itself reads and writes is kept here; the entries that the
    structure and build probes keep under their own keys go with those
    probes, whose results come from the environment. *)
Record Engine := {
  cache : Cache.t Snapshot;
  monitoring : bool;
  logWatchers : JsMap.t Watcher;
  processMonitor : option Timer;
  lastKnownState : option Snapshot;
  emitted : list Event
}.

(** [new ClaudeAuto()] *)
Definition initial : Engine :=
  {| cache := JsMap.empty _; monitoring := false;
     logWatchers := JsMap.empty _; processMonitor := None;
     lastKnownState := None; emitted := [] |}.

Definition with_cache (e : Engine) (c : Cache.t Snapshot) : Engine :=
  {| cache := c; monitoring := monitoring e; logWatchers := logWatchers e;
     processMonitor := processMonitor e;
     lastKnownState := lastKnownState e; emitted := emitted e |}.
Definition with_monitoring (e : Engine) (b : bool) : Engine :=
  {| cache := cache e; monitoring := b; logWatchers := logWatchers e;
     processMonitor := processMonitor e;
     lastKnownState := lastKnownState e; emitted := emitted e |}.
Definition with_logWatchers (e : Engine) (w : JsMap.t Watcher) : Engine :=
  {| cache := cache e; monitoring := monitoring e; logWatchers := w;
     processMonitor := processMonitor e;
     lastKnownState := lastKnownState e; emitted := emitted e |}.
Definition with_processMonitor (e : Engine) (t : option Timer) : Engine :=
  {| cache := cache e; monitoring := monitoring e;
     logWatchers := logWatchers e; processMonitor := t;
     lastKnownState := lastKnownState e; emitted := emitted e |}.
Definition with_lastKnownState (e : Engine) (s : option Snapshot) : Engine :=
  {| cache := cache e; monitoring := monitoring e;
     logWatchers := logWatchers e; processMonitor := processMonitor e;
     lastKnownState := s; emitted := emitted e |}.
Definition with_emitted (e : Engine) (l : list Event) : Engine :=
  {| cache := cache e; monitoring := monitoring e;
     logWatchers := logWatchers e; processMonitor := processMonitor e;
     lastKnownState := lastKnownState e; emitted := l |}.

(** A method of the engine: it returns or throws, and leaves the engine in
    a new state either way (a [throw] undoes nothing). *)
Definition M (A : Type) := Engine -> Result A * Engine.

Definition ret {A} (a : A) : M A := fun e => (Ok a, e).
Definition throw {A} (x : Error) : M A := fun e => (Err x, e).
Definition mbind {A B} (m : M A) (k : A -> M B) : M B :=
  fun e =>
    match m e with
    | (Ok a, e') => k a e'
    | (Err x, e') => (Err x, e')
    end.
Definition tryCatch {A} (m : M A) (handler : Error -> M A) : M A :=
  fun e =>
    match m e with
    | (Ok a, e') => (Ok a, e')
    | (Err x, e') => handler x e'
    end.
Definition modify (f : Engine -> Engine) : M unit := fun e => (Ok tt, f e).

Notation "x <- m ;; k" := (mbind m (fun x => k))
  (at level 61, m at next level, right associativity).
Notation "m ;;; k" := (mbind m (fun _ => k))
  (at level 61, right associativity).

(** [for (const x of xs) await f(x)] *)
Fixpoint forEach {A} (xs : list A) (f : A -> M unit) : M unit :=
  match xs with
  | [] => ret tt
  | x :: r => f x ;;; forEach r f
  end.

(** What the five probes of [scan] deliver. *)
Record ProbeResults := {
  probed_monorepo : Structure;
  probed_ps : option jsstring;
  probed_network : JsMap.t NetStatus;
  probed_quality : Quality;
  probed_git : Git
}.

(** What the world outside the engine does during one call: whether
    [startLogWatcher] can create the log file and spawn [tail] for a log
    name, the handle [setInterval] hands out, what [Promise.all] of the
    probes resolves to, and the readings of [Date.now()]. *)
Record Env := {
  spawnTail : jsstring -> Result Watcher;
  nextTimer : nat;
  probes : Result ProbeResults;
  atLookup : Z;
  atAssembly : Z;
  atStore : Z;
  atEmit : Z
}.

Variable env : Env.

(** [scan()] *)
Definition scan : M Snapshot :=
  fun e =>
    let cacheKey := str "env_scan" in
    match Cache.getCache (cache e) cacheKey (atLookup env) with
    | (Some cached, c) => (Ok cached, with_cache e c)
    | (None, c) =>
        match probes env with
        | Err x => (Err x, with_cache e c)
        | Ok pr =>
            let processes := Probes.scanProcesses (probed_ps pr) in
            let result :=
              {| Differ.timestamp := atAssembly env;
                 Differ.monorepo := probed_monorepo pr;
                 Differ.processes := Some processes;
                 Differ.network := Some (probed_network pr);
                 Differ.quality := probed_quality pr;
                 Differ.git := probed_git pr;
                 Differ.readiness :=
                   Some (Scoring.calculateReadiness processes
                           (probed_network pr) (probed_quality pr)
                           (probed_git pr)) |} in
            (Ok result,
             with_cache e (Cache.setCache c cacheKey result None (atStore env)))
        end
    end.

(** [startLogWatcher(logName)] *)
Definition startLogWatcher (logName : jsstring) : M Watcher :=
  fun e =>
    match spawnTail env logName with
    | Err x => (Err x, e)
    | Ok tailProcess =>
        (Ok tailProcess,
         with_logWatchers e (JsMap.set logName tailProcess (logWatchers e)))
    end.

(** [startProcessMonitoring(interval)] *)
Definition startProcessMonitoring (interval : Z) : M unit :=
  modify (fun e =>
    with_processMonitor e
      (Some {| timer_id := nextTimer env; every := interval |})).

(** [startNetworkMonitoring(interval)]: an empty body. *)
Definition startNetworkMonitoring (interval : Z) : M unit := ret tt.

(** The [options] argument; an omitted property is [None]. *)
Record Options := {
  interval : option Z;
  logFiles : option (list jsstring);
  watchProcesses : option bool;
  watchNetwork : option bool;
  autoRestart : option bool
}.

Definition noOptions : Options :=
  {| interval := None; logFiles := None; watchProcesses := None;
     watchNetwork := None; autoRestart := None |}.

Definition orDefault {A} (o : option A) (d : A) : A :=
  match o with Some a => a | None => d end.

(** [startMonitoring(options = {})] *)
Definition startMonitoring (options : Options) : M unit :=
  fun e =>
    if monitoring e then
      throw (Error_ (str "Monitoring already active")) e
    else
      let interval := orDefault (interval options) 5000%Z in
      let logFiles :=
        orDefault (logFiles options)
          [str "dev-server"; str "build"; str "test"; str "convex"] in
      let watchProcesses := orDefault (watchProcesses options) true in
      let watchNetwork := orDefault (watchNetwork options) true in
      (modify (fun e => with_monitoring e true) ;;;
       tryCatch
         ((* Start log file monitoring *)
          forEach logFiles (fun logName =>
            _ <- startLogWatcher logName ;; ret tt) ;;;
          (* Start process monitoring *)
          (if watchProcesses then startProcessMonitoring interval
           else ret tt) ;;;
          (* Start network monitoring *)
          (if watchNetwork then startNetworkMonitoring interval
           else ret tt) ;;;
          (* Capture initial state *)
          s <- scan ;;
          modify (fun e => with_lastKnownState e (Some s)) ;;;
          modify (fun e =>
            with_emitted e
              (emitted e ++ [monitoring_started logFiles interval
                               (atEmit env)])))
         (fun error =>
            modify (fun e => with_monitoring e false) ;;; throw error)) e.

End Monitor.
End Monitor.


(* ================================================================== *)
(** * Quality, network and version-control probes *)
(* ================================================================== *)

Module Checks.
Import Facets.

(** [(output.match(/.../g) || []).length]: the matches are found from left
    to right, each search starting where the previous match ended.
    [matchAt s] is the length of the match at the start of [s] (never 0
    for the patterns used), [skip] the number of code units still covered
    by the previous match. *)
Fixpoint countMatches (matchAt : jsstring -> option nat) (skip : nat)
    (s : jsstring) : nat :=
  match s with
  | [] => 0
  | _ :: r =>
      match skip with
      | S k => countMatches matchAt k r
      | O =>
          match matchAt s with
          | Some n => S (countMatches matchAt (Nat.pred n) r)
          | None => countMatches matchAt 0 r
          end
      end
  end.

(** [/error TS\d+/] at the start of [s]. *)
Definition tsErrorAt (s : jsstring) : option nat :=
  if startsWithBy N.eqb (str "error TS") s then
    match takeWhile isDigit (skipn 8 s) with
    | [] => None
    | digits => Some (8 + List.length digits)
    end
  else None.

(** [/word/i] at the start of [s], for a literal ASCII [word]. *)
Definition wordAtCI (word s : jsstring) : option nat :=
  if startsWithBy ciEq word s then Some (List.length word) else None.

(** What [checkTypeScript] returns: the two properties the readiness
    reads, and [output] or [error]. *)
Record TypeScriptCheck := {
  tsc : TypeScript;
  tsc_output : option jsstring;
  tsc_error : option jsstring
}.

(** [checkTypeScript()]. The argument is the outcome of [npx tsc]:
    [Some (stdout, stderr)], or [None] when [execAsync] rejected (non-zero
    exit status, timeout, missing tool). *)
Definition checkTypeScript (run : option (jsstring * jsstring))
  : TypeScriptCheck :=
  match run with
  | Some (stdout, stderr) =>
      let output := stdout ++ stderr in
      let errors := Z.of_nat (countMatches tsErrorAt 0 output) in
      {| tsc := {| ts_errors := errors; ts_clean := Z.eqb errors 0 |};
         tsc_output :=
           if Z.ltb 0 errors
           then Some (join [10%N]
                        (firstn 5 (splitOn 10 [] output)))
           else None;
         tsc_error := None |}
  | None =>
      {| tsc := {| ts_errors := -1; ts_clean := false |};
         tsc_output := None;
         tsc_error := Some (str "TypeScript check failed") |}
  end.

(** What [checkLint] returns; [available] is set, to [false], only by the
    [catch]. *)
Record LintCheck := { linted : Lint; available : option bool }.

(** [checkLint()], on the outcome of [npm run lint]. *)
Definition checkLint (run : option (jsstring * jsstring)) : LintCheck :=
  match run with
  | Some (stdout, stderr) =>
      let output := stdout ++ stderr in
      {| linted :=
           {| lint_errors :=
                Z.of_nat (countMatches (wordAtCI (str "error")) 0 output);
              warnings :=
                Z.of_nat (countMatches (wordAtCI (str "warning")) 0 output);
              fixable := includes output (str "fixable") |};
         available := None |}
  | None =>
      {| linted := {| lint_errors := 0; warnings := 0; fixable := false |};
         available := Some false |}
  end.

(** [checkQuality()], with the result of [checkBuild] given. *)
Definition checkQuality (tscRun lintRun : option (jsstring * jsstring))
    (build : Build) : Quality :=
  {| typescript := tsc (checkTypeScript tscRun);
     lint := linted (checkLint lintRun);
     build := build |}.

(** The [endpoints] table of [checkNetwork]: name, port, framework. *)
Definition endpoints : list (jsstring * Z * jsstring) :=
  [(str "astro", 4321%Z, str "astro");
   (str "vite", 5173%Z, str "vite");
   (str "next", 3000%Z, str "next");
   (str "react", 3000%Z, str "react");
   (str "convex", 3210%Z, str "convex");
   (str "dev-alt", 8080%Z, str "generic");
   (str "dev-alt2", 4000%Z, str "generic")].

(** One check of [checkNetwork]: [curl] is [Some stdout] when the [curl]
    command ran, [None] when it was rejected. *)
Definition check (curl : option jsstring) (endpoint : jsstring * Z * jsstring)
  : jsstring * NetStatus :=
  let '(name, port, framework) := endpoint in
  match curl with
  | Some stdout =>
      let statusCode := trim stdout in
      (name,
       {| port := port; status := statusCode;
          healthy := JsMap.arrayIncludes [str "200"; str "404"] statusCode;
          framework := framework |})
  | None =>
      (name,
       {| port := port; status := str "offline"; healthy := false;
          framework := framework |})
  end.

(** [Object.fromEntries(entries)] *)
Definition fromEntries {V} (entries : list (jsstring * V)) : JsMap.t V :=
  fold_left (fun o e => JsMap.set (fst e) (snd e) o) entries (JsMap.empty V).

(** [checkNetwork()]; [curl name] is the outcome of the probe of the
    endpoint called [name]. *)
Definition checkNetwork (curl : jsstring -> option jsstring)
  : JsMap.t NetStatus :=
  fromEntries
    (map (fun endpoint => check (curl (fst (fst endpoint))) endpoint)
         endpoints).

(** [getGitStatus()]. The arguments are the outcomes of
    [git branch --show-current] and [git status --porcelain]; each call
    has its own [catch], so the outer one is never entered. *)
Definition getGitStatus (branchRun statusRun : option jsstring) : Git :=
  let branch :=
    match branchRun with Some stdout => trim stdout | None => str "unknown" end in
  let status :=
    match statusRun with Some stdout => trim stdout | None => [] end in
  let changedFiles :=
    match status with
    | [] => 0%Z
    | _ :: _ =>
        Z.of_nat (List.length
          (filter (fun line => Nat.ltb 0 (List.length (trim line)))
                  (splitOn 10 [] status)))
    end in
  {| branch := branch; changedFiles := changedFiles;
     git_clean := Z.eqb changedFiles 0 |}.

(** [/deployment:\s*([^\s]+)/i] at the start of [s]: group 1. *)
Definition deploymentAt (s : jsstring) : option jsstring :=
  if startsWithBy ciEq (str "deployment:") s then
    match takeWhile (fun c => negb (isSpace c))
            (dropWhile isSpace (skipn 11 s)) with
    | [] => None
    | name => Some name
    end
  else None.

Fixpoint deploymentMatch (s : jsstring) : option jsstring :=
  match deploymentAt s with
  | Some d => Some d
  | None => match s with [] => None | _ :: r => deploymentMatch r end
  end.

(** [extractConvexDeployment(statusOutput)] *)
Definition extractConvexDeployment (statusOutput : jsstring) : jsstring :=
  match deploymentMatch statusOutput with
  | Some name => name
  | None => str "unknown"
  end.

End Checks.

(* ================================================================== *)
(** * Log analysis: [analyzeLogEntry] *)
(* ================================================================== *)

Module LogWatch.
Import Classifier.

(** The events [analyzeLogEntry] emits, by name: ['terminal:error'],
    ['terminal:warning'], ['terminal:success'], ['terminal:url']. *)
Inductive Terminal :=
| terminal_error (source message line : jsstring) (timestamp : Z)
| terminal_warning (source message line : jsstring) (timestamp : Z)
| terminal_success (source message line : jsstring) (timestamp : Z)
| terminal_url (source : jsstring) (url : option jsstring) (line : jsstring)
    (timestamp : Z).

(** The body of the loop for one line; [now] is the reading of
    [Date.now()] when the event is built. *)
Definition analyzeLine (source : jsstring) (now : Z) (line : jsstring)
  : list Terminal :=
  let analysis := parseLogLine line in
  match type analysis with
  | error => [terminal_error source (message analysis) line now]
  | warning => [terminal_warning source (message analysis) line now]
  | success => [terminal_success source (message analysis) line now]
  | url => [terminal_url source (url_of analysis) line now]
  | info => []
  end.

(** The loop over [lines]; [clock i] is the clock while line number [i]
    is handled. *)
Fixpoint analyzeLines (source : jsstring) (clock : nat -> Z) (i : nat)
    (lines : list jsstring) : list Terminal :=
  match lines with
  | [] => []
  | line :: rest =>
      analyzeLine source (clock i) line
      ++ analyzeLines source clock (S i) rest
  end.

(** [content.split('\n').filter(line => line.trim())] *)
Definition nonBlankLines (content : jsstring) : list jsstring :=
  filter (fun line => Nat.ltb 0 (List.length (trim line)))
         (splitOn 10 [] content).

(** [analyzeLogEntry({ source, content })]: the events emitted, in
    order. *)
Definition analyzeLogEntry (source content : jsstring) (clock : nat -> Z)
  : list Terminal :=
  analyzeLines source clock 0 (nonBlankLines content).

End LogWatch.

(* ================================================================== *)
(** * The monitoring session: the timer callback, [stopMonitoring] *)
(* ================================================================== *)

Module Session.
Import Facets Exn Monitor.

Section Session.
Variable Structure : Type.

(** What the timer callback and [stopMonitoring] emit: ['state:changed'],
    the event named after a change's own [type], ['monitoring:error'] (with
    the error whose message it carries) and ['monitoring:stopped']. *)
Inductive Emitted :=
| state_changed (changes : list Differ.Change)
    (before after : Snapshot Structure) (timestamp : Z)
| change_event (change : Differ.Change)
| monitoring_error (error : Error) (timestamp : Z)
| monitoring_stopped (timestamp : Z).

(** The [for] loop over [changes] in the callback: process and network
    changes are emitted again under their own name, a readiness change is
    not. *)
Definition criticalChanges (changes : list Differ.Change) : list Emitted :=
  flat_map (fun change =>
    match change with
    | Differ.process_crashed _ _ | Differ.process_started _ _
    | Differ.network_down _ _ | Differ.network_up _ _ => [change_event change]
    | Differ.readiness_changed _ _ _ => []
    end) changes.

(** The callback [startProcessMonitoring] hands to [setInterval]: the
    engine afterwards and the events emitted. [atEvent] is the clock when
    an event is built. *)
Definition tick (env : Env Structure) (atEvent : Z) (e : Engine Structure)
  : Engine Structure * list Emitted :=
  match scan env e with
  | (Err error, e) => (e, [monitoring_error error atEvent])
  | (Ok currentState, e) =>
      match lastKnownState e with
      | Some before =>
          match Differ.detectStateChanges before currentState with
          | Err error => (e, [monitoring_error error atEvent])
          | Ok changes =>
              (with_lastKnownState e (Some currentState),
               match changes with
               | [] => []
               | _ :: _ =>
                   state_changed changes before currentState atEvent
                   :: criticalChanges changes
               end)
          end
      | None => (with_lastKnownState e (Some currentState), [])
      end
  end.





End Session.
End Session.
(* ================================================================== *)
(** * Vocabulary of the properties *)
(* ================================================================== *)

Module ClassifierSpec.

(** [w] is [pat] read through the character relation [eq]. *)
Definition reads (eq : N -> N -> bool) (pat w : jsstring) : Prop :=
  Forall2 (fun p c => eq p c = true) pat w.

(** [line] contains the keyword [kw], letter case apart. *)
Definition containsCI (kw line : jsstring) : Prop :=
  exists pre w post, line = pre ++ w ++ post /\ reads ciEq kw w.

(** [line] contains one of [words], letter case apart. *)
Definition mentions (words : list jsstring) (line : jsstring) : Prop :=
  exists kw, In kw words /\ containsCI kw line.

(** [line] contains [http://] or [https://] followed by a code unit that is
    not white space. *)
Definition hasUrl (line : jsstring) : Prop :=
  exists pre scheme c post,
    (scheme = str "http" \/ scheme = str "https") /\
    isSpace c = false /\
    line = pre ++ scheme ++ str "://" ++ c :: post.

End ClassifierSpec.

Module ScoringSpec.
Import Facets.

(** The four contributions to the score, as [calculateReadiness] adds
    them up. *)
Definition typePoints (q : Quality) : Z :=
  if ts_clean (typescript q) then 40 else 0.
Definition buildPoints (q : Quality) : Z :=
  if build_success (build q) then 30 else 0.
Definition lintPoints (q : Quality) : Z :=
  if Z.eqb (lint_errors (lint q)) 0 then 20
  else if Z.ltb (lint_errors (lint q)) 10 then 10 else 0.
Definition devPoints (processes : JsMap.t Process)
    (network : JsMap.t NetStatus) : Z :=
  if Nat.ltb 0 (List.length (JsMap.keys processes))
     && existsb healthy (JsMap.values network)
  then 10 else 0.

(** The scenario of the specification: build of size 1.2M in 850 ms, two
    lint warnings, one process, one healthy endpoint. *)
Definition scenario_processes : JsMap.t Process :=
  [(str "vite",
    {| pid := Some (str "4242"); proc_status := str "running";
       proc_port := Some (str "5173"); proc_type := str "vite-dev";
       command := None |})].
Definition scenario_network : JsMap.t NetStatus :=
  [(str "vite",
    {| port := 5173; status := str "200"; healthy := true;
       framework := str "vite" |})].
Definition scenario_quality : Quality :=
  {| typescript := {| ts_errors := 0; ts_clean := true |};
     lint := {| lint_errors := 0; warnings := 2; fixable := false |};
     build := {| build_success := true; time := Some 850%Z;
                 size := Some (str "1.2M") |} |}.
Definition scenario_git : Git :=
  {| branch := str "main"; changedFiles := 0; git_clean := true |}.

(** A poor state of the same project: three type errors, a failing build,
    twelve lint errors. *)
Definition poor_typescript : TypeScript := {| ts_errors := 3; ts_clean := false |}.
Definition poor_lint : Lint :=
  {| lint_errors := 12; warnings := 0; fixable := true |}.
Definition poor_build : Build :=
  {| build_success := false; time := None; size := None |}.

End ScoringSpec.

Module ProbesSpec.

(** Two lines of [ps aux] output: a Vite server on a custom port and the
    Convex development server. *)
Definition ps_sample : jsstring :=
  str "dev   4242  0.0  0.1 1234 5678 ?  Sl  10:00  0:01 node /app/node_modules/.bin/vite --port 5174"
  ++ [10%N] ++
  str "dev   4250  0.0  0.1 1234 5678 ?  Sl  10:00  0:01 npx convex dev".

End ProbesSpec.

Module CacheSpec.
Import Cache.
Section CacheSpec.
Variable V : Type.

(** The tables [this.cache] can hold: it starts as [new Map()] and only
    [setCache] and [getCache] write to it. *)
Inductive reachable : Cache.t V -> Prop :=
| reach_new : reachable (JsMap.empty _)
| reach_set c key data timeout now :
    reachable c -> reachable (setCache c key data timeout now)
| reach_get c key now :
    reachable c -> reachable (snd (getCache c key now)).

(** The entry a call of [setCache] writes. *)
Definition written (data : V) (timeout : option Z) (now : Z) : Entry V :=
  {| data := data; timestamp := now;
     timeout := match timeout with Some x => x | None => cacheTimeout end |}.

(** The keys are distinct and at most ten. *)
Definition wf (c : Cache.t V) : Prop :=
  NoDup (JsMap.keys c) /\ JsMap.size c <= 10.

(** A call on the cache, and a history of calls since [new Map()]. *)
Inductive op :=
| op_set (key : jsstring) (data : V) (timeout : option Z) (now : Z)
| op_get (key : jsstring) (now : Z).

Definition step (c : Cache.t V) (o : op) : Cache.t V :=
  match o with
  | op_set key data timeout now => setCache c key data timeout now
  | op_get key now => snd (getCache c key now)
  end.

Definition run (ops : list op) : Cache.t V :=
  fold_left step ops (JsMap.empty _).

(** After the calls [ops] the table holds [k]. *)
Definition holds (ops : list op) (k : jsstring) : Prop :=
  JsMap.get k (run ops) <> None.

(** Call number [i] of [ops] put [k] in the table, which has held it ever
    since. *)
Definition insertedAt (ops : list op) (k : jsstring) (i : nat) : Prop :=
  i < List.length ops /\
  ~ holds (firstn i ops) k /\
  forall j, i < j <= List.length ops -> holds (firstn j ops) k.

(** [a] was inserted before [b]. *)
Definition insertedBefore (ops : list op) (a b : jsstring) : Prop :=
  exists i j, insertedAt ops a i /\ insertedAt ops b j /\ i < j.

(** The keys of the table are in the order of their insertion, and each
    has an insertion call. *)
Definition inOrder (ops : list op) : Prop :=
  StronglySorted (insertedBefore ops) (JsMap.keys (run ops)) /\
  forall k, In k (JsMap.keys (run ops)) -> exists i, insertedAt ops k i.

End CacheSpec.

(** Ten calls that fill a table with the keys 0 to 9. *)
Definition fill : list (op nat) :=
  map (fun i => op_set (ofZ (Z.of_nat i)) i None (Z.of_nat i)) (seq 0 10).

End CacheSpec.

Module DifferSpec.
Import Facets Differ.

(** [before.processes[k].pid] read through the map. *)
Definition pidAt (m : JsMap.t Process) (k : jsstring) : option jsstring :=
  match JsMap.get k m with
  | Some p => pid p
  | None => None
  end.

(** The keys of [ks] that [others] does not include, in order. *)
Definition missingFrom (others ks : list jsstring) : list jsstring :=
  filter (fun k => negb (JsMap.arrayIncludes others k)) ks.

(** What the two process loops push: the roles that stopped, then the
    roles that started. *)
Definition processEvents (pb pa : JsMap.t Process) : list Change :=
  map (fun k => process_crashed k (pidAt pb k))
      (missingFrom (JsMap.keys pa) (JsMap.keys pb))
  ++ map (fun k => process_started k (pidAt pa k))
      (missingFrom (JsMap.keys pb) (JsMap.keys pa)).

(** A snapshot with a Vite server and the Convex server running, Vite's
    endpoint healthy. *)
Definition vite : Process :=
  {| pid := Some (str "4242"); proc_status := str "running";
     proc_port := Some (str "5173"); proc_type := str "vite-dev";
     command := None |}.
Definition convex : Process :=
  {| pid := Some (str "4250"); proc_status := str "running";
     proc_port := Some (str "3210"); proc_type := str "local";
     command := None |}.
Definition up (p : Z) (f : string) : NetStatus :=
  {| port := p; status := str "200"; healthy := true; framework := str f |}.
Definition down (p : Z) (f : string) : NetStatus :=
  {| port := p; status := str "offline"; healthy := false;
     framework := str f |}.

Definition snapshotOf (t : Z) (procs : JsMap.t Process)
    (net : JsMap.t NetStatus) : Snapshot unit :=
  {| timestamp := t; monorepo := tt;
     processes := Some procs; network := Some net;
     quality := ScoringSpec.scenario_quality;
     git := ScoringSpec.scenario_git;
     readiness :=
       Some {| score := 100; level := ready; issues := []; critical := [] |} |}.

Definition both_running : Snapshot unit :=
  snapshotOf 1000 [(str "vite", vite); (str "convex", convex)]
    [(str "vite", up 5173 "vite"); (str "convex", down 3210 "convex")].

(** The same, later, with the Convex server gone. *)
Definition convex_gone : Snapshot unit :=
  snapshotOf 6000 [(str "vite", vite)]
    [(str "vite", up 5173 "vite"); (str "convex", down 3210 "convex")].

(** The same as [both_running], later, with the Convex endpoint missing
    from the network map. *)
Definition endpoint_missing : Snapshot unit :=
  snapshotOf 6000 [(str "vite", vite); (str "convex", convex)]
    [(str "vite", up 5173 "vite")].

(** A later snapshot in which everything moved: Vite is gone and its
    endpoint is down, a Next.js server has started, the Convex endpoint is
    up, and the readiness level dropped. *)
Definition all_changed : Snapshot unit :=
  {| timestamp := 6000; monorepo := tt;
     processes :=
       Some [(str "convex", convex);
             (str "next",
              {| pid := Some (str "4300"); proc_status := str "running";
                 proc_port := Some (str "3000"); proc_type := str "next-dev";
                 command := None |})];
     network :=
       Some [(str "vite", down 5173 "vite"); (str "convex", up 3210 "convex")];
     quality := ScoringSpec.scenario_quality;
     git := ScoringSpec.scenario_git;
     readiness :=
       Some {| score := 70; level := partial;
               issues := [str "Build failing"];
               critical := [str "Build failing"] |} |}.

End DifferSpec.

Module MonitorSpec.
Import Facets Exn Monitor.

(** A world in which every [tail] process starts and the probes find the
    scenario of [ScoringSpec]. *)
Definition calm : Env unit :=
  {| spawnTail := fun logName => Ok (List.length logName);
     nextTimer := 1;
     probes := Ok {| probed_monorepo := tt;
                     probed_ps := Some ProbesSpec.ps_sample;
                     probed_network := ScoringSpec.scenario_network;
                     probed_quality := ScoringSpec.scenario_quality;
                     probed_git := ScoringSpec.scenario_git |};
     atLookup := 1000; atAssembly := 1900; atStore := 1901;
     atEmit := 1902 |}.

(** The engine after a first, successful [startMonitoring()]. *)
Definition started_once : Engine unit :=
  snd (startMonitoring calm (noOptions) (initial unit)).

(** A method leaves the monitoring flag as it found it. *)
Definition keepsFlag {Structure A} (m : M Structure A) : Prop :=
  forall e, monitoring (snd (m e)) = monitoring e.

End MonitorSpec.

(* ================================================================== *)
(** * Vocabulary of the further properties *)
(* ================================================================== *)

Module DiffSpec.
Import Facets Differ DifferSpec.

(** The network events as the design describes them: for the endpoints of
    the previous map that the current map has too, a flip of [healthy],
    with the current port. *)
Definition networkEvents (beforeNetwork afterNetwork : JsMap.t NetStatus)
  : list Change :=
  flat_map (fun entry =>
    match JsMap.get (fst entry) afterNetwork with
    | Some a =>
        if healthy (snd entry) && negb (healthy a)
        then [network_down (fst entry) (Some (port a))]
        else if negb (healthy (snd entry)) && healthy a
        then [network_up (fst entry) (Some (port a))]
        else []
    | None => []
    end) beforeNetwork.

(** The network events whatever the current map holds: as
    [networkEvents] for an endpoint it has; an endpoint it only inherits
    from [Object.prototype] reads as unhealthy and without a port, which
    gives a [network:down] when the endpoint was healthy. *)
Definition networkSeen (beforeNetwork afterNetwork : JsMap.t NetStatus)
  : list Change :=
  flat_map (fun entry =>
    match JsMap.read (fst entry) afterNetwork with
    | JsMap.own a =>
        if healthy (snd entry) && negb (healthy a)
        then [network_down (fst entry) (Some (port a))]
        else if negb (healthy (snd entry)) && healthy a
        then [network_up (fst entry) (Some (port a))]
        else []
    | JsMap.inherited =>
        if healthy (snd entry) then [network_down (fst entry) None] else []
    | JsMap.undefined => []
    end) beforeNetwork.

Definition readinessEvents (before after : option Readiness) : list Change :=
  match before, after with
  | Some b, Some a =>
      if Level_eqb (level b) (level a) then []
      else [readiness_changed (level b) (level a) (score a)]
  | _, _ => []
  end.

Section DiffSpec.
Variable Structure : Type.

(** Every endpoint of the previous network map is in the current one (or
    one of the maps is missing). *)
Definition covered (before after : Snapshot Structure) : Prop :=
  match network before, network after with
  | Some beforeNetwork, Some afterNetwork =>
      forall k, In k (JsMap.keys beforeNetwork) ->
                JsMap.get k afterNetwork <> None
  | _, _ => True
  end.

(** Every endpoint of the previous network map can be read from the
    current one: [after.network[endpoint]] is not [undefined] (or one of
    the maps is missing). *)
Definition readable (before after : Snapshot Structure) : Prop :=
  match network before, network after with
  | Some beforeNetwork, Some afterNetwork =>
      forall k, In k (JsMap.keys beforeNetwork) ->
                JsMap.read k afterNetwork <> JsMap.undefined
  | _, _ => True
  end.

(** The events in general, in the same order. *)
Definition observed (before after : Snapshot Structure) : list Change :=
  processEvents (orEmpty (processes before)) (orEmpty (processes after))
  ++ match network before, network after with
     | Some beforeNetwork, Some afterNetwork =>
         networkSeen beforeNetwork afterNetwork
     | _, _ => []
     end
  ++ readinessEvents (readiness before) (readiness after).

(** The events in the order of the design: crashed, started, network,
    readiness. *)
Definition expected (before after : Snapshot Structure) : list Change :=
  processEvents (orEmpty (processes before)) (orEmpty (processes after))
  ++ match network before, network after with
     | Some beforeNetwork, Some afterNetwork =>
         networkEvents beforeNetwork afterNetwork
     | _, _ => []
     end
  ++ readinessEvents (readiness before) (readiness after).

End DiffSpec.
End DiffSpec.

Module DiffScenes.
Import Facets Differ DifferSpec.

(** [both_running] a tick later: the Vite server has been restarted under
    a new pid and another port. *)
Definition vite_restarted : Snapshot unit :=
  snapshotOf 6000
    [(str "vite",
      {| pid := Some (str "9999"); proc_status := str "running";
         proc_port := Some (str "5174"); proc_type := str "vite-dev";
         command := None |});
     (str "convex", convex)]
    [(str "vite", up 5173 "vite"); (str "convex", down 3210 "convex")].

(** A snapshot with an endpoint called "constructor", healthy or not. *)
Definition with_constructor (s : NetStatus) : Snapshot unit :=
  snapshotOf 1000 [(str "vite", vite); (str "convex", convex)]
    [(str "vite", up 5173 "vite"); (str "constructor", s)].

(** [both_running] with the Convex endpoint answering now. *)
Definition convex_up : Snapshot unit :=
  snapshotOf 6000 [(str "vite", vite); (str "convex", convex)]
    [(str "vite", up 5173 "vite"); (str "convex", up 3210 "convex")].

End DiffScenes.

Module IssueSpec.
Import Facets.

(** The issue each part of [calculateReadiness] records, if any. *)
Definition typeIssue (q : Quality) : list jsstring :=
  if ts_clean (typescript q) then []
  else if Z.ltb 0 (ts_errors (typescript q))
  then [ofZ (ts_errors (typescript q)) ++ str " TypeScript errors"]
  else [].

Definition buildIssue (q : Quality) : list jsstring :=
  if build_success (build q) then [] else [str "Build failing"].

Definition lintIssue (q : Quality) : list jsstring :=
  if Z.eqb (lint_errors (lint q)) 0 then []
  else if Z.ltb (lint_errors (lint q)) 10 then
    if fixable (lint q)
    then [ofZ (lint_errors (lint q)) ++ str " fixable lint errors"]
    else []
  else [ofZ (lint_errors (lint q)) ++ str " lint errors"].

End IssueSpec.

Module ChecksSpec.
Import Facets Checks.

(** [output] contains "error TS" followed by a digit. *)
Definition hasTsError (output : jsstring) : Prop :=
  exists pre d post,
    isDigit d = true /\ output = pre ++ str "error TS" ++ d :: post.

(** The names of the endpoints that [checkNetwork] probes. *)
Definition endpointNames : list jsstring :=
  [str "astro"; str "vite"; str "next"; str "react"; str "convex";
   str "dev-alt"; str "dev-alt2"].

(** A machine where only the Vite server answers, and one where nothing
    does. *)
Definition only_vite (name : jsstring) : option jsstring :=
  if eqb name (str "vite") then Some (str "200") else None.
Definition nothing_answers (name : jsstring) : option jsstring := None.

Definition probedSnapshot (t : Z) (curl : jsstring -> option jsstring)
  : Differ.Snapshot unit :=
  DifferSpec.snapshotOf t [(str "vite", DifferSpec.vite)] (checkNetwork curl).

End ChecksSpec.

Module PortSpec.
Import Facets Probes.

(** [command] has [--port], [port] or [PORT], then one separator or more
    (white space, [=], [:]), then a digit. *)
Definition hasPortArg (command : jsstring) : Prop :=
  exists pre kw seps d rest,
    In kw [str "--port"; str "port"; str "PORT"] /\
    seps <> [] /\ forallb isPortSep seps = true /\
    isDigit d = true /\
    command = pre ++ kw ++ seps ++ d :: rest.

(** The ports [extractPort] falls back on. *)
Definition defaultPorts : list jsstring :=
  [str "4321"; str "5173"; str "3000"; str "3210"; str "8080"; str "unknown"].

(** The roles [scanProcesses] knows. *)
Definition roleNames : list jsstring :=
  [str "turbo"; str "astro"; str "vite"; str "next"; str "convex"; str "dev"].

(** What every line keeps true of the object being built. *)
Definition tidy (m : JsMap.t Process) : Prop :=
  NoDup (JsMap.keys m) /\ incl (JsMap.keys m) roleNames /\
  forall k p, In (k, p) m -> proc_status p = str "running".

(** The command of a [ps aux] line: what follows its ten first fields. *)
Definition commandOf (line : jsstring) : jsstring :=
  join (str " ") (skipn 10 (splitSpaces [] false line)).

(** A [ps aux] line for [npm run dev]. *)
Definition npm_run_dev : jsstring :=
  str "dev  4242  0.0  0.1 1234 5678 ?  Sl  10:00  0:01 npm run dev".

End PortSpec.

Module CacheMoreSpec.
Import Cache CacheSpec.
Section CacheMoreSpec.
Variable V : Type.

(** The number of entries that come after [key] in the table. *)
Fixpoint behind (key : jsstring) (c : Cache.t V) : nat :=
  match c with
  | [] => 0
  | (k, _) :: r => if eqb k key then List.length r else behind key r
  end.

(** The number of [setCache] calls in a history. *)
Definition writes (ops : list (op V)) : nat :=
  List.length
    (filter (fun o => match o with op_set _ _ _ _ => true | op_get _ _ _ => false end)
            ops).

(** The key a call is about. *)
Definition keyOf (o : op V) : jsstring :=
  match o with
  | op_set k _ _ _ => k
  | op_get _ k _ => k
  end.

(** No call of the history is about [key]. *)
Definition others (key : jsstring) (ops : list (op V)) : Prop :=
  Forall (fun o => keyOf o <> key) ops.

(** The table holds [w] under [key], with at most [n] entries after
    it. *)
Definition holdsWithin (key : jsstring) (w : Entry V) (n : nat)
    (c : Cache.t V) : Prop :=
  wf c /\ JsMap.get key c = Some w /\ behind key c <= n.

End CacheMoreSpec.

(** Nine writes of further keys, with reads in between. *)
Definition nine_more : list (op nat) :=
  flat_map (fun i => [op_set (ofZ (Z.of_nat i)) i None (Z.of_nat i);
                      @op_get nat (ofZ 3) (Z.of_nat i)]) (seq 11 9).

End CacheMoreSpec.

Module SessionSpec.
Import Facets Exn Monitor Session.

Section SessionSpec.
Variable Structure : Type.
Variable env : Env Structure.



(** What a [scan] that finds no valid cache entry returns (or throws). *)
Definition probed : Result (Snapshot Structure) :=
  match probes env with
  | Err x => Err x
  | Ok pr =>
      let processes := Probes.scanProcesses (probed_ps pr) in
      Ok {| Differ.timestamp := atAssembly env;
            Differ.monorepo := probed_monorepo pr;
            Differ.processes := Some processes;
            Differ.network := Some (probed_network pr);
            Differ.quality := probed_quality pr;
            Differ.git := probed_git pr;
            Differ.readiness :=
              Some (Scoring.calculateReadiness processes
                      (probed_network pr) (probed_quality pr)
                      (probed_git pr)) |}
  end.




End SessionSpec.


(** A later moment of [MonitorSpec.calm]: the cache entry of the first
    scan has expired, and the probes find the Convex endpoint only. *)
Definition later : Env unit :=
  {| spawnTail := spawnTail MonitorSpec.calm;
     nextTimer := 2;
     probes := Ok {| probed_monorepo := tt;
                     probed_ps := Some ProbesSpec.ps_sample;
                     probed_network := [(str "convex", DifferSpec.up 3210 "convex")];
                     probed_quality := ScoringSpec.scenario_quality;
                     probed_git := ScoringSpec.scenario_git |};
     atLookup := 7000; atAssembly := 7900; atStore := 7901;
     atEmit := 7902 |}.

(** [MonitorSpec.calm] two seconds on: the cache entry is still valid. *)
Definition soon : Env unit :=
  {| spawnTail := spawnTail MonitorSpec.calm;
     nextTimer := 2;
     probes := probes later;
     atLookup := 3000; atAssembly := 3900; atStore := 3901;
     atEmit := 3902 |}.


End SessionSpec.
(* ================================================================== *)
(** * Properties of the string functions *)
(* ================================================================== *)

Module JSFacts.
Import ClassifierSpec.

Lemma eqb_refl (a : jsstring) : eqb a a = true.
Proof.
  induction a as [|x a IH]; simpl; [reflexivity|].
  now rewrite N.eqb_refl, IH.
Qed.

Lemma eqb_eq (a b : jsstring) : eqb a b = true <-> a = b.
Proof.
  split.
  - revert b; induction a as [|x a IH]; intros [|y b]; simpl;
      try discriminate; auto.
    intros H. apply andb_true_iff in H as [Hx Hr].
    apply N.eqb_eq in Hx. apply IH in Hr. congruence.
  - intros ->. apply eqb_refl.
Qed.

Lemma eqb_neq (a b : jsstring) : eqb a b = false <-> a <> b.
Proof.
  rewrite <- eqb_eq. destruct (eqb a b); split; congruence.
Qed.

Lemma reads_eqb (pat w : jsstring) : reads N.eqb pat w <-> w = pat.
Proof.
  split.
  - induction 1 as [|p c pat w H _ IH]; [reflexivity|].
    apply N.eqb_eq in H. congruence.
  - intros ->. induction pat; constructor; auto using N.eqb_refl.
Qed.

Lemma startsWithBy_spec eq pat s :
  startsWithBy eq pat s = true <->
  exists w post, s = w ++ post /\ reads eq pat w.
Proof.
  revert s; induction pat as [|p pat IH]; intros s; simpl.
  - split; [intros _; exists [], s; split; [reflexivity|constructor]|auto].
  - destruct s as [|c s].
    + split; [discriminate|].
      intros (w & post & E & R). inversion R; subst. discriminate.
    + rewrite andb_true_iff, IH. split.
      * intros (Hc & w & post & -> & R).
        exists (c :: w), post. split; [reflexivity|constructor; assumption].
      * intros (w & post & E & R). inversion R as [|? c' ? w' Hc R']; subst.
        injection E as -> ->. split; [assumption|eauto].
Qed.

(** The search succeeds exactly when some infix of [s] reads as [pat]. *)
Lemma searchBy_spec eq pat s :
  searchBy eq pat s = true <->
  exists pre w post, s = pre ++ w ++ post /\ reads eq pat w.
Proof.
  induction s as [|c s IH].
  - simpl. rewrite orb_false_r, startsWithBy_spec. split.
    + intros (w & post & E & R). exists [], w, post. split; [exact E|exact R].
    + intros (pre & w & post & E & R). destruct pre; [|discriminate].
      simpl in E. eauto.
  - cbn [searchBy]. rewrite orb_true_iff, IH, startsWithBy_spec. split.
    + intros [(w & post & E & R)|(pre & w & post & E & R)].
      * exists [], w, post. split; [exact E|exact R].
      * exists (c :: pre), w, post. simpl. split; congruence.
    + intros (pre & w & post & E & R). destruct pre as [|c' pre].
      * left. exists w, post. split; [exact E|exact R].
      * right. injection E as -> ->. exists pre, w, post. auto.
Qed.

Lemma startsWith_eqb pat s :
  startsWithBy N.eqb pat s = true <-> exists post, s = pat ++ post.
Proof.
  rewrite startsWithBy_spec. split.
  - intros (w & post & E & R). apply reads_eqb in R. subst. eauto.
  - intros (post & ->). exists pat, post. split; [reflexivity|].
    now apply reads_eqb.
Qed.

Lemma skipn_prefix (pat post : jsstring) :
  skipn (List.length pat) (pat ++ post) = post.
Proof. induction pat; simpl; auto. Qed.

End JSFacts.

(* ================================================================== *)
(** * The classifier *)
(* ================================================================== *)

Module ClassifierFacts.
Import Classifier ClassifierSpec JSFacts.

Lemma testAnyCI_spec words line :
  testAnyCI words line = true <-> mentions words line.
Proof.
  unfold testAnyCI, mentions, containsCI. rewrite existsb_exists.
  split; intros (kw & Hin & H); exists kw; split; auto;
    now apply searchBy_spec.
Qed.

Lemma testAnyCI_false words line :
  testAnyCI words line = false <-> ~ mentions words line.
Proof.
  rewrite <- testAnyCI_spec. destruct (testAnyCI words line); split; congruence.
Qed.

Lemma urlBody_spec scheme rest :
  urlBody scheme rest <> None <->
  exists c post, isSpace c = false /\ rest = str "://" ++ c :: post.
Proof.
  unfold urlBody.
  destruct (startsWithBy N.eqb (str "://") rest) eqn:E.
  - apply startsWith_eqb in E as (r & ->).
    change (skipn 3 (str "://" ++ r)) with r.
    destruct r as [|c r]; simpl.
    + split; [congruence|]. intros (c & post & _ & H). discriminate.
    + destruct (isSpace c) eqn:Hc; simpl.
      * split; [congruence|]. intros (c' & post & Hc' & H).
        injection H as -> _. congruence.
      * split; [|discriminate]. intros _. exists c, r. auto.
  - split; [congruence|]. intros (c & post & _ & ->).
    assert (startsWithBy N.eqb (str "://") (str "://" ++ c :: post) = true)
      by (apply startsWith_eqb; eauto).
    congruence.
Qed.

Lemma urlAt_spec s :
  urlAt s <> None <->
  exists scheme c post,
    (scheme = str "http" \/ scheme = str "https") /\
    isSpace c = false /\ s = scheme ++ str "://" ++ c :: post.
Proof.
  unfold urlAt.
  destruct (startsWithBy N.eqb (str "http") s) eqn:E.
  - apply startsWith_eqb in E as (r & ->).
    change (skipn 4 (str "http" ++ r)) with r.
    destruct (startsWithBy N.eqb (str "s") r) eqn:Es.
    + apply startsWith_eqb in Es as (r' & ->).
      change (skipn 1 (str "s" ++ r')) with r'.
      destruct (urlBody (str "https") r') eqn:Eb.
      * split; [|discriminate]. intros _.
        assert (H : urlBody (str "https") r' <> None) by congruence.
        apply urlBody_spec in H as (c & post & Hc & ->).
        exists (str "https"), c, post. auto.
      * assert (Hs : urlBody (str "http") (str "s" ++ r') = None)
          by reflexivity.
        rewrite Hs. split; [congruence|].
        intros (scheme & c & post & [->| ->] & Hc & H).
        -- discriminate.
        -- exfalso.
           assert (Hb : urlBody (str "https") r' <> None).
           { apply urlBody_spec. exists c, post. split; [assumption|].
             injection H as H. exact H. }
           congruence.
    + rewrite urlBody_spec. split.
      * intros (c & post & Hc & ->). exists (str "http"), c, post. auto.
      * intros (scheme & c & post & [->| ->] & Hc & H).
        -- exists c, post. split; [assumption|]. injection H as H. exact H.
        -- exfalso. injection H as H. subst r. discriminate.
  - split; [congruence|].
    intros (scheme & c & post & [->| ->] & Hc & ->); discriminate.
Qed.

Lemma urlMatch_spec line : urlMatch line <> None <-> hasUrl line.
Proof.
  unfold hasUrl. induction line as [|a line IH].
  - cbn [urlMatch]. destruct (urlAt []) eqn:E; [discriminate|].
    split; [congruence|].
    intros (pre & scheme & c & post & [->| ->] & _ & H);
      destruct pre; discriminate.
  - cbn [urlMatch]. destruct (urlAt (a :: line)) eqn:E.
    + split; [|discriminate]. intros _.
      assert (H : urlAt (a :: line) <> None) by congruence.
      apply urlAt_spec in H as (scheme & c & post & Hs & Hc & H).
      exists [], scheme, c, post. auto.
    + rewrite IH. split.
      * intros (pre & scheme & c & post & Hs & Hc & ->).
        exists (a :: pre), scheme, c, post. auto.
      * intros (pre & scheme & c & post & Hs & Hc & H).
        destruct pre as [|a' pre].
        -- exfalso.
           assert (urlAt (a :: line) <> None)
             by (apply urlAt_spec; exists scheme, c, post; auto).
           congruence.
        -- injection H as -> ->. exists pre, scheme, c, post. auto.
Qed.

End ClassifierFacts.

Module ClassifierLaws.
Import Classifier ClassifierSpec JSFacts ClassifierFacts.

Lemma critical_is_error line :
  mentions criticalWords line -> mentions errorWords line.
Proof.
  intros (kw & Hin & H). exists kw. split; [|exact H].
  unfold criticalWords, errorWords in *. simpl in *. tauto.
Qed.

(** C2. [parseLogLine] returns, for every line, exactly one of the five
    categories, chosen by precedence: [error] exactly when the line contains
    one of error, failed, exception, fatal, crash in any letter case (whatever
    else it contains); otherwise [warning] exactly when it contains a warning
    keyword; otherwise [success] exactly when it contains a success keyword;
    otherwise [url] exactly when it contains an http(s) URL; otherwise
    [info]. The severity is critical exactly when the line contains fatal or
    crash. *)
Theorem parseLogLine_precedence (line : jsstring) :
  let a := parseLogLine line in
  (type a = error <-> mentions errorWords line) /\
  (type a = warning <->
     ~ mentions errorWords line /\ mentions warningWords line) /\
  (type a = success <->
     ~ mentions errorWords line /\ ~ mentions warningWords line /\
     mentions successWords line) /\
  (type a = url <->
     ~ mentions errorWords line /\ ~ mentions warningWords line /\
     ~ mentions successWords line /\ hasUrl line) /\
  (type a = info <->
     ~ mentions errorWords line /\ ~ mentions warningWords line /\
     ~ mentions successWords line /\ ~ hasUrl line) /\
  (severity a = Some sev_critical <-> mentions criticalWords line).
Proof.
  cbv zeta. unfold parseLogLine.
  pose proof (critical_is_error (line := line)) as Hsub.
  rewrite <- (testAnyCI_spec criticalWords) in *.
  rewrite <- (testAnyCI_spec errorWords) in *.
  rewrite <- (testAnyCI_spec warningWords), <- (testAnyCI_spec successWords).
  rewrite <- urlMatch_spec.
  destruct (testAnyCI errorWords line) eqn:He.
  { cbn [type severity].
    destruct (testAnyCI criticalWords line);
      repeat split; intros; try discriminate; try tauto; intuition congruence. }
  assert (Hc : testAnyCI criticalWords line = false).
  { destruct (testAnyCI criticalWords line); [|reflexivity].
    now specialize (Hsub eq_refl). }
  rewrite Hc.
  destruct (testAnyCI warningWords line) eqn:Hw.
  { cbn [type severity].
    repeat split; intros; try discriminate; intuition congruence. }
  destruct (testAnyCI successWords line) eqn:Hs.
  { cbn [type severity].
    repeat split; intros; try discriminate; intuition congruence. }
  destruct (urlMatch line) eqn:Hu; cbn [type severity];
    repeat split; intros; try discriminate; intuition congruence.
Qed.

(** The precedence law on a line that matches every pattern: it has a
    warning keyword, an error keyword, a URL and a success keyword, and is
    an error of plain severity. *)
Lemma parseLogLine_precedence_witness :
  let line := str "warning: build FAILED, see https://ci.example/run ready" in
  (mentions errorWords line /\ mentions warningWords line /\
   mentions successWords line /\ hasUrl line) /\
  type (parseLogLine line) = error /\
  severity (parseLogLine line) <> Some sev_critical.
Proof.
  cbv zeta.
  destruct (parseLogLine_precedence
              (str "warning: build FAILED, see https://ci.example/run ready"))
    as (He & _ & _ & _ & _ & Hc).
  assert (Hm : mentions errorWords
                 (str "warning: build FAILED, see https://ci.example/run ready"))
    by (apply testAnyCI_spec; vm_compute; reflexivity).
  split; [|split].
  - split; [exact Hm|]. split; [|split].
    + apply testAnyCI_spec. vm_compute. reflexivity.
    + apply testAnyCI_spec. vm_compute. reflexivity.
    + apply urlMatch_spec. vm_compute. discriminate.
  - apply He. exact Hm.
  - intros Hs. apply Hc in Hs. apply testAnyCI_spec in Hs.
    vm_compute in Hs. discriminate.
Defined.

(** The example of the API notes. *)
Example parseLogLine_doc :
  parseLogLine (str "Error: Build failed")
  = {| type := error; message := str "Error: Build failed";
       severity := Some sev_error; url_of := None |}.
Proof. vm_compute. reflexivity. Qed.

Example parseLogLine_url :
  parseLogLine (str "  Local:   http://localhost:5173/ now ")
  = {| type := url; message := str "Local:   http://localhost:5173/ now";
       severity := None; url_of := Some (str "http://localhost:5173/") |}.
Proof. vm_compute. reflexivity. Qed.

Example parseLogLine_info :
  type (parseLogLine (str "watching for file changes")) = info.
Proof. vm_compute. reflexivity. Qed.

End ClassifierLaws.

Module ScoringLaws.
Import Facets Scoring ScoringSpec.

Lemma score_sum processes network quality git :
  score (calculateReadiness processes network quality git)
  = (typePoints quality + buildPoints quality + lintPoints quality
     + devPoints processes network)%Z.
Proof.
  unfold calculateReadiness, typePoints, buildPoints, lintPoints, devPoints.
  cbn [score].
  destruct (ts_clean (typescript quality));
    [|destruct (Z.ltb 0 (ts_errors (typescript quality)))];
    destruct (build_success (build quality));
    destruct (Z.eqb (lint_errors (lint quality)) 0);
    destruct (Z.ltb (lint_errors (lint quality)) 10);
    destruct (Nat.ltb 0 (List.length (JsMap.keys processes))
              && existsb healthy (JsMap.values network));
    cbn [fst snd]; lia.
Qed.

Lemma existsb_healthy (network : JsMap.t NetStatus) :
  existsb healthy (JsMap.values network) = true <->
  exists k n, In (k, n) network /\ healthy n = true.
Proof.
  unfold JsMap.values. rewrite existsb_exists. split.
  - intros (n & Hin & Hn). apply in_map_iff in Hin as ((k & n') & E & Hin).
    simpl in E. subst. eauto.
  - intros (k & n & Hin & Hn). exists n. split; [|assumption].
    apply in_map_iff. exists (k, n). auto.
Qed.

(** C1. With a clean type-check, a successful build, no lint error (any
    number of warnings), at least one running process and at least one
    healthy endpoint, the readiness is score 100, level ready, no issue. *)
Theorem calculateReadiness_all_green
    (processes : JsMap.t Process) (network : JsMap.t NetStatus)
    (quality : Quality) (git : Git) :
  ts_clean (typescript quality) = true ->
  build_success (build quality) = true ->
  lint_errors (lint quality) = 0%Z ->
  (exists k p, In (k, p) processes) ->
  (exists k n, In (k, n) network /\ healthy n = true) ->
  let r := calculateReadiness processes network quality git in
  score r = 100%Z /\ level r = ready /\ issues r = [] /\ critical r = [].
Proof.
  intros Hts Hb Hl (k & p & Hp) Hn. cbv zeta.
  apply existsb_healthy in Hn.
  unfold calculateReadiness. rewrite Hts, Hb, Hl, Hn.
  assert (Hlen : Nat.ltb 0 (List.length (JsMap.keys processes)) = true).
  { destruct processes; [destruct Hp|reflexivity]. }
  rewrite Hlen. cbn. repeat split; reflexivity.
Qed.

Lemma calculateReadiness_all_green_witness :
  let r := calculateReadiness scenario_processes scenario_network
             scenario_quality scenario_git in
  score r = 100%Z /\ level r = ready /\ issues r = [] /\ critical r = [].
Proof.
  apply calculateReadiness_all_green; try reflexivity.
  - unfold scenario_processes. eexists _, _. left. reflexivity.
  - unfold scenario_network. eexists _, _.
    split; [left; reflexivity|reflexivity].
Defined.

(** The other scenarios of the specification and the mock data of the
    repository's readiness test. *)
Example calculateReadiness_all_red :
  calculateReadiness [] []
    {| typescript := poor_typescript;
       lint := {| lint_errors := 12; warnings := 0; fixable := false |};
       build := poor_build |} scenario_git
  = {| score := 0; level := not_ready;
       issues := [str "3 TypeScript errors"; str "Build failing";
                  str "12 lint errors"];
       critical := [str "3 TypeScript errors"; str "Build failing"] |}.
Proof. vm_compute. reflexivity. Qed.

Example calculateReadiness_fixable_lint :
  calculateReadiness scenario_processes scenario_network
    {| typescript := typescript scenario_quality;
       lint := {| lint_errors := 5; warnings := 1; fixable := true |};
       build := build scenario_quality |} scenario_git
  = {| score := 90; level := ready;
       issues := [str "5 fixable lint errors"]; critical := [] |}.
Proof. vm_compute. reflexivity. Qed.

Example calculateReadiness_many_lint :
  calculateReadiness scenario_processes scenario_network
    {| typescript := typescript scenario_quality;
       lint := {| lint_errors := 15; warnings := 0; fixable := true |};
       build := build scenario_quality |} scenario_git
  = {| score := 80; level := partial;
       issues := [str "15 lint errors"]; critical := [] |}.
Proof. vm_compute. reflexivity. Qed.

Example calculateReadiness_mock :
  score (calculateReadiness [] scenario_network scenario_quality scenario_git)
  = 90%Z.
Proof. vm_compute. reflexivity. Qed.

Lemma typePoints_monotone q q' :
  (ts_clean (typescript q) = true -> ts_clean (typescript q') = true) ->
  (typePoints q <= typePoints q')%Z.
Proof.
  intros H. unfold typePoints.
  destruct (ts_clean (typescript q)); [rewrite H by reflexivity; lia|].
  destruct (ts_clean (typescript q')); lia.
Qed.

Lemma buildPoints_monotone q q' :
  (build_success (build q) = true -> build_success (build q') = true) ->
  (buildPoints q <= buildPoints q')%Z.
Proof.
  intros H. unfold buildPoints.
  destruct (build_success (build q)); [rewrite H by reflexivity; lia|].
  destruct (build_success (build q')); lia.
Qed.

(** Fewer lint errors never score less: the bands are 0, 1 to 9, 10 and
    more. *)
Lemma lintPoints_antitone q q' :
  (0 <= lint_errors (lint q') <= lint_errors (lint q))%Z ->
  (lintPoints q <= lintPoints q')%Z.
Proof.
  intros H. unfold lintPoints.
  destruct (Z.eqb_spec (lint_errors (lint q)) 0);
    destruct (Z.eqb_spec (lint_errors (lint q')) 0);
    destruct (Z.ltb_spec (lint_errors (lint q)) 10);
    destruct (Z.ltb_spec (lint_errors (lint q')) 10); lia.
Qed.

Lemma devPoints_bounds processes network :
  (0 <= devPoints processes network <= 10)%Z.
Proof.
  unfold devPoints.
  destruct (Nat.ltb 0 (List.length (JsMap.keys processes))
            && existsb healthy (JsMap.values network)); lia.
Qed.

Lemma set_nonempty V (k : jsstring) (v : V) (m : JsMap.t V) :
  Nat.ltb 0 (List.length (JsMap.keys (JsMap.set k v m))) = true.
Proof.
  destruct m as [|[k' v'] m]; simpl; [reflexivity|].
  destruct (eqb k' k); reflexivity.
Qed.

Lemma set_In V (k : jsstring) (v : V) (m : JsMap.t V) :
  exists k0, In (k0, v) (JsMap.set k v m).
Proof.
  induction m as [|[k' v'] m (k0 & IH)]; simpl.
  - exists k. now left.
  - destruct (eqb k' k).
    + exists k'. now left.
    + exists k0. now right.
Qed.

Lemma devPoints_added processes network k p k' n' :
  healthy n' = true ->
  devPoints (JsMap.set k p processes) (JsMap.set k' n' network) = 10%Z.
Proof.
  intros Hn. unfold devPoints. rewrite set_nonempty.
  destruct (set_In k' n' network) as (k0 & Hin).
  assert (H : existsb healthy (JsMap.values (JsMap.set k' n' network)) = true)
    by (apply existsb_healthy; eauto).
  now rewrite H.
Qed.

(** C8. All else equal, the score does not decrease when the type-check
    becomes clean, when the build succeeds, when the number of lint errors
    goes down, or when a running process and a healthy endpoint are added. *)
Theorem calculateReadiness_monotone
    (processes : JsMap.t Process) (network : JsMap.t NetStatus) (git : Git)
    (ts ts' : TypeScript) (l l' : Lint) (b b' : Build)
    (k : jsstring) (p : Process) (k' : jsstring) (n' : NetStatus) :
  ts_clean ts' = true ->
  build_success b' = true ->
  (0 <= lint_errors l' <= lint_errors l)%Z ->
  healthy n' = true ->
  let S := fun ts l b processes network =>
    score (calculateReadiness processes network
             {| typescript := ts; lint := l; build := b |} git) in
  (S ts l b processes network <= S ts' l b processes network)%Z /\
  (S ts l b processes network <= S ts l b' processes network)%Z /\
  (S ts l b processes network <= S ts l' b processes network)%Z /\
  (S ts l b processes network
   <= S ts l b (JsMap.set k p processes) (JsMap.set k' n' network))%Z.
Proof.
  intros Hts Hb Hl Hn. cbv beta zeta. rewrite !score_sum.
  pose proof (devPoints_bounds processes network) as Hd.
  rewrite (@devPoints_added processes network k p k' n' Hn).
  set (q := {| typescript := ts; lint := l; build := b |}).
  pose proof (@typePoints_monotone q
    {| typescript := ts'; lint := l; build := b |} (fun _ => Hts)) as H1.
  pose proof (@buildPoints_monotone q
    {| typescript := ts; lint := l; build := b' |} (fun _ => Hb)) as H2.
  pose proof (@lintPoints_antitone q
    {| typescript := ts; lint := l'; build := b |} Hl) as H3.
  unfold typePoints, buildPoints, lintPoints in *.
  cbn [typescript lint build q] in *.
  repeat split; lia.
Qed.

Lemma calculateReadiness_monotone_witness :
  let S := fun ts l b processes network =>
    score (calculateReadiness processes network
             {| typescript := ts; lint := l; build := b |} scenario_git) in
  let ts' := typescript scenario_quality in
  let l' := {| lint_errors := 5; warnings := 0; fixable := true |} in
  let b' := build scenario_quality in
  let p := {| pid := Some (str "77"); proc_status := str "running";
              proc_port := Some (str "5173"); proc_type := str "vite-dev";
              command := None |} in
  let n' := {| port := 5173; status := str "200"; healthy := true;
               framework := str "vite" |} in
  (S poor_typescript poor_lint poor_build [] []
   <= S ts' poor_lint poor_build [] [])%Z /\
  (S poor_typescript poor_lint poor_build [] []
   <= S poor_typescript poor_lint b' [] [])%Z /\
  (S poor_typescript poor_lint poor_build [] []
   <= S poor_typescript l' poor_build [] [])%Z /\
  (S poor_typescript poor_lint poor_build [] []
   <= S poor_typescript poor_lint poor_build
        (JsMap.set (str "vite") p []) (JsMap.set (str "vite") n' []))%Z.
Proof.
  cbv zeta.
  apply (@calculateReadiness_monotone [] [] scenario_git
           poor_typescript (typescript scenario_quality)
           poor_lint {| lint_errors := 5; warnings := 0; fixable := true |}
           poor_build (build scenario_quality)).
  - reflexivity.
  - reflexivity.
  - simpl. lia.
  - reflexivity.
Defined.

End ScoringLaws.

Module ProbesLaws.
Import Facets Probes ProbesSpec.

(** The port extraction cases of the repository's tests and API notes. *)
Example extractPort_vite : extractPort (str "vite") = str "5173".
Proof. vm_compute. reflexivity. Qed.
Example extractPort_next : extractPort (str "next") = str "3000".
Proof. vm_compute. reflexivity. Qed.
Example extractPort_custom : extractPort (str "--port 8080") = str "8080".
Proof. vm_compute. reflexivity. Qed.
Example extractPort_equals :
  extractPort (str "npm run dev --port=3000") = str "3000".
Proof. vm_compute. reflexivity. Qed.

Example scanProcesses_sample :
  scanProcesses (Some ps_sample)
  = [(str "vite",
      {| pid := Some (str "4242"); proc_status := str "running";
         proc_port := Some (str "5174"); proc_type := str "vite-dev";
         command := None |});
     (str "convex",
      {| pid := Some (str "4250"); proc_status := str "running";
         proc_port := Some (str "3210"); proc_type := str "local";
         command := None |})].
Proof. vm_compute. reflexivity. Qed.

(** C10. [canStart] answers true exactly when the scan yields the empty
    object; the scan yields the empty object when the process listing
    failed; so [canStart] answers true on a failed listing, as it does on a
    listing that shows no development process. *)
Theorem canStart_true_on_failed_scan :
  (forall ps, canStart ps = true <-> scanProcesses ps = []) /\
  scanProcesses None = [] /\
  canStart None = true /\
  (forall stdout, scanProcesses (Some stdout) = [] ->
     canStart (Some stdout) = canStart None).
Proof.
  assert (H : forall ps, canStart ps = true <-> scanProcesses ps = []).
  { intros ps. unfold canStart, JsMap.keys. rewrite length_map.
    destruct (scanProcesses ps); simpl; split; congruence. }
  split; [exact H|]. split; [reflexivity|]. split; [reflexivity|].
  intros stdout E. apply H in E. rewrite E. reflexivity.
Qed.

(** A listing that ran and shows nothing, and a listing that failed. *)
Example canStart_idle_or_failed :
  canStart (Some []) = true /\ canStart None = true.
Proof. split; reflexivity. Qed.

Example canStart_busy : canStart (Some ps_sample) = false.
Proof. vm_compute. reflexivity. Qed.

End ProbesLaws.

(* ================================================================== *)
(** * Maps in insertion order *)
(* ================================================================== *)

Module JsMapFacts.
Import JSFacts.
Section JsMapFacts.
Variable V : Type.
Implicit Types (m : JsMap.t V) (k : jsstring) (v : V).

Lemma get_None_keys m k : JsMap.get k m = None <-> ~ In k (JsMap.keys m).
Proof.
  induction m as [|[k' v'] m IH]; simpl.
  - tauto.
  - destruct (eqb k' k) eqn:E.
    + apply eqb_eq in E. split; [discriminate|]. intros H. exfalso. auto.
    + apply eqb_neq in E. rewrite IH. tauto.
Qed.

Lemma get_Some_In m k v : JsMap.get k m = Some v -> In (k, v) m.
Proof.
  induction m as [|[k' v'] m IH]; simpl; [discriminate|].
  destruct (eqb k' k) eqn:E.
  - apply eqb_eq in E. intros [= ->]. left. congruence.
  - auto.
Qed.

Lemma In_get m k v : NoDup (JsMap.keys m) -> In (k, v) m -> JsMap.get k m = Some v.
Proof.
  induction m as [|[k' v'] m IH]; simpl; [tauto|].
  intros Hnd [E|Hin].
  - injection E as -> ->. now rewrite eqb_refl.
  - inversion Hnd as [|? ? Hk Hnd']; subst.
    destruct (eqb k' k) eqn:E; [|auto].
    apply eqb_eq in E. subst. exfalso. apply Hk.
    change k with (fst (k, v)). now apply in_map.
Qed.

(** Writing a key that is not there appends it. *)
Lemma set_new m k v : JsMap.get k m = None -> JsMap.set k v m = m ++ [(k, v)].
Proof.
  induction m as [|[k' v'] m IH]; simpl; [reflexivity|].
  destruct (eqb k' k); [discriminate|]. intros H. now rewrite IH.
Qed.

(** Writing a key that is there keeps every key in its place. *)
Lemma set_old_keys m k v :
  JsMap.get k m <> None -> JsMap.keys (JsMap.set k v m) = JsMap.keys m.
Proof.
  induction m as [|[k' v'] m IH]; simpl; [congruence|].
  destruct (eqb k' k); simpl; [reflexivity|].
  intros H. now rewrite IH.
Qed.

Lemma get_set_same m k v : JsMap.get k (JsMap.set k v m) = Some v.
Proof.
  induction m as [|[k' v'] m IH]; simpl.
  - now rewrite eqb_refl.
  - destruct (eqb k' k) eqn:E; simpl; now rewrite E.
Qed.

Lemma get_set_other m k k' v :
  k' <> k -> JsMap.get k' (JsMap.set k v m) = JsMap.get k' m.
Proof.
  intros Hne. induction m as [|[k0 v0] m IH]; simpl.
  - assert (E : eqb k k' = false) by (apply eqb_neq; congruence).
    now rewrite E.
  - destruct (eqb k0 k) eqn:E; simpl; [|now rewrite IH].
    apply eqb_eq in E. subst k0.
    assert (E : eqb k k' = false) by (apply eqb_neq; congruence).
    now rewrite E.
Qed.

Lemma get_delete_other m k k' :
  k' <> k -> JsMap.get k' (JsMap.delete k m) = JsMap.get k' m.
Proof.
  intros Hne. induction m as [|[k0 v0] m IH]; simpl; [reflexivity|].
  destruct (eqb k0 k) eqn:E; simpl; [|now rewrite IH].
  apply eqb_eq in E. subst k0.
  assert (E : eqb k k' = false) by (apply eqb_neq; congruence).
  now rewrite E.
Qed.

Lemma keys_delete_subset m k k' :
  In k' (JsMap.keys (JsMap.delete k m)) -> In k' (JsMap.keys m).
Proof.
  induction m as [|[k0 v0] m IH]; simpl; [tauto|].
  destruct (eqb k0 k); simpl; tauto.
Qed.

Lemma NoDup_delete m k :
  NoDup (JsMap.keys m) -> NoDup (JsMap.keys (JsMap.delete k m)).
Proof.
  induction m as [|[k0 v0] m IH]; simpl; [auto|].
  intros Hnd. inversion Hnd as [|? ? Hk Hnd']; subst.
  destruct (eqb k0 k); simpl; [assumption|].
  constructor; [|auto]. intros H. apply Hk. eapply keys_delete_subset, H.
Qed.

(** Once deleted, a key is gone. *)
Lemma get_delete_same m k :
  NoDup (JsMap.keys m) -> JsMap.get k (JsMap.delete k m) = None.
Proof.
  induction m as [|[k0 v0] m IH]; simpl; [reflexivity|].
  intros Hnd. inversion Hnd as [|? ? Hk Hnd']; subst.
  destruct (eqb k0 k) eqn:E; simpl.
  - apply eqb_eq in E. subst. now apply get_None_keys.
  - rewrite E. auto.
Qed.

Lemma keys_set m k v :
  JsMap.keys (JsMap.set k v m)
  = match JsMap.get k m with
    | Some _ => JsMap.keys m
    | None => JsMap.keys m ++ [k]
    end.
Proof.
  destruct (JsMap.get k m) eqn:E.
  - apply set_old_keys. congruence.
  - rewrite set_new by assumption. unfold JsMap.keys. now rewrite map_app.
Qed.

Lemma NoDup_set m k v :
  NoDup (JsMap.keys m) -> NoDup (JsMap.keys (JsMap.set k v m)).
Proof.
  intros Hnd. rewrite keys_set. destruct (JsMap.get k m) eqn:E; [assumption|].
  apply get_None_keys in E.
  apply NoDup_rev in Hnd. rewrite <- (rev_involutive (_ ++ _)).
  apply NoDup_rev. rewrite rev_app_distr. simpl.
  constructor; [|assumption]. now rewrite <- in_rev.
Qed.

Lemma size_set m k v :
  JsMap.size (JsMap.set k v m)
  = match JsMap.get k m with
    | Some _ => JsMap.size m
    | None => S (JsMap.size m)
    end.
Proof.
  unfold JsMap.size.
  rewrite <- (length_map fst (JsMap.set k v m)), <- (length_map fst m).
  fold (JsMap.keys (JsMap.set k v m)). fold (JsMap.keys m).
  rewrite keys_set. destruct (JsMap.get k m); [reflexivity|].
  rewrite length_app. simpl. lia.
Qed.

Lemma size_delete_le m k : JsMap.size (JsMap.delete k m) <= JsMap.size m.
Proof.
  unfold JsMap.size. induction m as [|[k0 v0] m IH]; simpl; [lia|].
  destruct (eqb k0 k); simpl; lia.
Qed.

(** Deleting the first key drops the first entry. *)
Lemma delete_first k v m : JsMap.delete k ((k, v) :: m) = m.
Proof. simpl. now rewrite eqb_refl. Qed.

End JsMapFacts.
End JsMapFacts.

(* ================================================================== *)
(** * The cache *)
(* ================================================================== *)

Module CacheLaws.
Import Cache CacheSpec JSFacts JsMapFacts.
Section CacheLaws.
Variable V : Type.
Implicit Types (c : Cache.t V) (key : jsstring).

(** What [setCache] does, by cases: an existing key is overwritten in
    place; a new key goes last, and when that makes eleven entries the
    first one is dropped. *)
Lemma setCache_cases c key data timeout now :
  JsMap.size c <= 10 ->
  setCache c key data timeout now
  = match JsMap.get key c with
    | Some _ => JsMap.set key (written data timeout now) c
    | None =>
        if Nat.ltb (JsMap.size c) 10
        then c ++ [(key, written data timeout now)]
        else tl c ++ [(key, written data timeout now)]
    end.
Proof.
  intros Hsz. unfold setCache. fold (written data timeout now).
  rewrite size_set. destruct (JsMap.get key c) eqn:E.
  - destruct (Nat.ltb_spec 10 (JsMap.size c)); [lia|reflexivity].
  - rewrite set_new by assumption.
    destruct (Nat.ltb_spec (JsMap.size c) 10) as [Hlt|Hge].
    + destruct (Nat.ltb_spec 10 (S (JsMap.size c))); [lia|reflexivity].
    + destruct (Nat.ltb_spec 10 (S (JsMap.size c))); [|lia].
      destruct c as [|[k0 e0] rest]; [simpl in Hge; lia|].
      simpl. now rewrite eqb_refl.
Qed.

Lemma wf_new : wf (JsMap.empty (Entry V)).
Proof. split; [constructor|unfold JsMap.size; simpl; lia]. Qed.

Lemma wf_setCache c key data timeout now :
  wf c -> wf (setCache c key data timeout now).
Proof.
  intros [Hnd Hsz]. unfold setCache. fold (written data timeout now).
  pose proof (@NoDup_set _ c key (written data timeout now) Hnd) as Hnd1.
  pose proof (@size_set _ c key (written data timeout now)) as Hsz1.
  destruct (Nat.ltb_spec 10 (JsMap.size (JsMap.set key (written data timeout now) c)))
    as [Hgt|Hle].
  - destruct (JsMap.set key (written data timeout now) c) as [|[k0 e0] rest] eqn:E.
    + simpl in Hgt. lia.
    + cbn [JsMap.firstKey]. rewrite delete_first. split.
      * simpl in Hnd1. now inversion Hnd1.
      * destruct (JsMap.get key c); unfold JsMap.size in *; simpl in *; lia.
  - split; assumption.
Qed.

Lemma wf_getCache c key now : wf c -> wf (snd (getCache c key now)).
Proof.
  intros [Hnd Hsz]. unfold getCache.
  destruct (JsMap.get key c) as [entry|]; [|split; assumption].
  destruct (Z.ltb _ _); simpl; [split; assumption|].
  split; [now apply NoDup_delete|].
  pose proof (@size_delete_le _ c key). lia.
Qed.

Lemma reachable_wf c : reachable c -> wf c.
Proof.
  induction 1; auto using wf_new, wf_setCache, wf_getCache.
Qed.

(** After [setCache], the key holds the entry just written. *)
Lemma get_setCache c key data timeout now :
  wf c ->
  JsMap.get key (setCache c key data timeout now)
  = Some (written data timeout now).
Proof.
  intros [Hnd Hsz]. rewrite setCache_cases by assumption.
  destruct (JsMap.get key c) eqn:E.
  - apply get_set_same.
  - destruct (Nat.ltb_spec (JsMap.size c) 10) as [Hlt|Hge].
    + rewrite <- set_new by assumption. apply get_set_same.
    + destruct c as [|[k0 e0] rest]; [simpl in Hge; lia|].
      simpl in E |- *. destruct (eqb k0 key); [discriminate|].
      rewrite <- set_new by assumption. apply get_set_same.
Qed.

End CacheLaws.

Section History.
Variable V : Type.
Implicit Types (ops : list (op V)) (c : Cache.t V) (k : jsstring).

Lemma run_snoc ops o : run (ops ++ [o]) = step (run ops) o.
Proof. unfold run. now rewrite fold_left_app. Qed.

Lemma run_reachable ops : reachable (run ops).
Proof.
  induction ops as [|o ops IH] using rev_ind.
  - apply reach_new.
  - rewrite run_snoc. destruct o; simpl; now constructor.
Qed.

Lemma holds_keys ops k : holds ops k <-> In k (JsMap.keys (run ops)).
Proof.
  unfold holds. pose proof (get_None_keys (run ops) k) as H.
  split.
  - intros Hne.
    destruct (in_dec (list_eq_dec N.eq_dec) k (JsMap.keys (run ops)));
      [assumption|]. now apply H in n.
  - intros Hin E. now apply H in E.
Qed.

Lemma firstn_snoc_le ops o j :
  j <= List.length ops -> firstn j (ops ++ [o]) = firstn j ops.
Proof.
  intros Hj. rewrite firstn_app.
  replace (j - List.length ops) with 0 by lia.
  simpl. apply app_nil_r.
Qed.

(** A key that stays in the table keeps its insertion call. *)
Lemma insertedAt_keep ops o k i :
  insertedAt ops k i -> holds (ops ++ [o]) k -> insertedAt (ops ++ [o]) k i.
Proof.
  intros (Hi & Hout & Hin) Hk. unfold insertedAt.
  rewrite length_app. simpl.
  split; [lia|]. split.
  - rewrite firstn_snoc_le by lia. assumption.
  - intros j Hj. destruct (Nat.eq_dec j (S (List.length ops))) as [->|Hne].
    + rewrite firstn_all2 by (rewrite length_app; simpl; lia). assumption.
    + rewrite firstn_snoc_le by lia. apply Hin. lia.
Qed.

(** A key that enters the table is inserted by the last call. *)
Lemma insertedAt_fresh ops o k :
  ~ holds ops k -> holds (ops ++ [o]) k ->
  insertedAt (ops ++ [o]) k (List.length ops).
Proof.
  intros Hout Hk. unfold insertedAt. rewrite length_app. simpl.
  split; [lia|]. split.
  - rewrite firstn_snoc_le by lia. now rewrite firstn_all.
  - intros j Hj. replace j with (S (List.length ops)) by lia.
    rewrite firstn_all2 by (rewrite length_app; simpl; lia). assumption.
Qed.

Lemma insertedAt_lt ops k i : insertedAt ops k i -> i < List.length ops.
Proof. now intros (H & _). Qed.

Lemma sorted_delete (R : jsstring -> jsstring -> Prop) c k :
  StronglySorted R (JsMap.keys c) ->
  StronglySorted R (JsMap.keys (JsMap.delete k c)).
Proof.
  induction c as [|[k0 e0] c IH]; simpl; [auto|].
  intros Hs. inversion Hs as [|? ? Hs' Hall]; subst.
  destruct (eqb k0 k); simpl; [assumption|].
  constructor; [auto|].
  rewrite Forall_forall in *. intros x Hx. apply Hall.
  eapply keys_delete_subset, Hx.
Qed.

Lemma sorted_snoc (R : jsstring -> jsstring -> Prop) l k :
  StronglySorted R l -> (forall a, In a l -> R a k) ->
  StronglySorted R (l ++ [k]).
Proof.
  induction l as [|a l IH]; simpl; intros Hs Hk.
  - repeat constructor.
  - inversion Hs as [|? ? Hs' Hall]; subst. constructor.
    + apply IH; auto.
    + apply Forall_app. split; [assumption|]. constructor; auto.
Qed.

Lemma sorted_weaken (R R' : jsstring -> jsstring -> Prop) l :
  StronglySorted R l ->
  (forall a b, In a l -> In b l -> R a b -> R' a b) ->
  StronglySorted R' l.
Proof.
  induction 1 as [|a l Hs IH Hall]; intros Hw; constructor.
  - apply IH. intros; apply Hw; simpl; auto.
  - rewrite Forall_forall in *. intros b Hb.
    apply Hw; simpl; auto.
Qed.

(** The keys after one more call: those that stay keep their order, and a
    key that was not there comes last. *)
Lemma step_keys c o :
  wf c ->
  exists l extra,
    JsMap.keys (step c o) = l ++ extra /\
    (forall R, StronglySorted R (JsMap.keys c) -> StronglySorted R l) /\
    (forall k, In k l -> In k (JsMap.keys c)) /\
    (extra = [] \/ exists k, extra = [k] /\ ~ In k (JsMap.keys c)).
Proof.
  intros [Hnd Hsz]. destruct o as [key data timeout now|key now]; simpl.
  - rewrite setCache_cases by assumption.
    destruct (JsMap.get key c) eqn:E.
    + exists (JsMap.keys c), []. rewrite app_nil_r.
      rewrite set_old_keys by congruence. repeat split; auto.
    + apply get_None_keys in E.
      destruct (Nat.ltb (JsMap.size c) 10).
      * exists (JsMap.keys c), [key]. unfold JsMap.keys at 1.
        rewrite map_app. repeat split; eauto.
      * exists (JsMap.keys (tl c)), [key]. unfold JsMap.keys at 1.
        rewrite map_app. split; [reflexivity|].
        destruct c as [|[k0 e0] c]; simpl; repeat split; eauto.
        intros R Hs. now inversion Hs.
  - unfold getCache. destruct (JsMap.get key c) as [entry|].
    + destruct (Z.ltb _ _); simpl.
      * exists (JsMap.keys c), []. rewrite app_nil_r. repeat split; auto.
      * exists (JsMap.keys (JsMap.delete key c)), []. rewrite app_nil_r.
        repeat split; auto.
        -- intros R. apply sorted_delete.
        -- intros k. apply keys_delete_subset.
    + simpl. exists (JsMap.keys c), []. rewrite app_nil_r.
      repeat split; auto.
Qed.

Lemma inOrder_run ops : inOrder ops.
Proof.
  induction ops as [|o ops [Hs Hex]] using rev_ind.
  - split; [constructor|intros k []].
  - pose proof (reachable_wf (run_reachable ops)) as Hwf.
    destruct (step_keys o Hwf) as (l & extra & Hkeys & Hl & Hsub & Hextra).
    assert (Hkeep : forall k, In k l -> exists i,
              insertedAt ops k i /\ insertedAt (ops ++ [o]) k i).
    { intros k Hk. destruct (Hex k (Hsub k Hk)) as (i & Hi).
      exists i. split; [assumption|]. apply insertedAt_keep; [assumption|].
      apply holds_keys. rewrite run_snoc, Hkeys. apply in_or_app. now left. }
    assert (Hold : StronglySorted (insertedBefore (ops ++ [o])) l).
    { apply (@sorted_weaken (insertedBefore ops)); [now apply Hl|].
      intros a b Ha Hb (i & j & Hi & Hj & Hij).
      exists i, j. split; [|split; [|assumption]];
        (apply insertedAt_keep; [assumption|]);
        apply holds_keys; rewrite run_snoc, Hkeys; apply in_or_app; now left. }
    unfold inOrder. rewrite run_snoc, Hkeys.
    destruct Hextra as [->|(k & -> & Hnew)].
    + rewrite app_nil_r. split; [assumption|].
      intros k Hk. destruct (Hkeep k Hk) as (i & _ & Hi). eauto.
    + assert (Hfresh : insertedAt (ops ++ [o]) k (List.length ops)).
      { apply insertedAt_fresh.
        - now rewrite holds_keys.
        - apply holds_keys. rewrite run_snoc, Hkeys. apply in_or_app.
          right. now left. }
      split.
      * apply sorted_snoc; [assumption|].
        intros a Ha. destruct (Hkeep a Ha) as (i & Hi & Hi').
        exists i, (List.length ops).
        split; [assumption|]. split; [assumption|].
        eapply insertedAt_lt, Hi.
      * intros k' Hk'. apply in_app_or in Hk' as [Hk'|[<-|[]]].
        -- destruct (Hkeep k' Hk') as (i & _ & Hi). eauto.
        -- eauto.
Qed.

(** The first key of the table was inserted before every other one. *)
Lemma oldest_first ops oldest entry rest :
  run ops = (oldest, entry) :: rest ->
  forall k, In k (JsMap.keys rest) -> insertedBefore ops oldest k.
Proof.
  intros E k Hk. destruct (inOrder_run ops) as [Hs _].
  rewrite E in Hs. simpl in Hs. inversion Hs as [|? ? _ Hall]; subst.
  rewrite Forall_forall in Hall. now apply Hall.
Qed.

End History.

(** C3. On a cache the engine can hold, after [setCache(key, value, ttl)]
    at time [writtenAt] with [ttl > 0]: a [getCache(key)] at a time [t1]
    with [t1 - writtenAt < ttl] returns [value] and leaves the table as it
    is; a [getCache(key)] at a time [t2 >= writtenAt + ttl] returns
    [null] and deletes the entry, so the key is no longer in the table. *)
Theorem getCache_after_setCache (V : Type) (c : Cache.t V)
    (key : jsstring) (value : V) (ttl writtenAt t1 t2 : Z) :
  reachable c ->
  (0 < ttl)%Z ->
  (t1 - writtenAt < ttl)%Z ->
  (writtenAt + ttl <= t2)%Z ->
  let c' := setCache c key value (Some ttl) writtenAt in
  getCache c' key t1 = (Some value, c') /\
  getCache c' key t2 = (None, JsMap.delete key c') /\
  JsMap.get key (JsMap.delete key c') = None.
Proof.
  intros Hr Httl Ht1 Ht2. cbv zeta.
  apply reachable_wf in Hr.
  pose proof (@wf_setCache _ c key value (Some ttl) writtenAt Hr) as [Hnd _].
  unfold getCache. rewrite get_setCache by assumption.
  cbn [written timeout timestamp data]. unfold orElse.
  destruct (Z.eqb_spec ttl 0); [lia|].
  destruct (Z.ltb_spec (t1 - writtenAt) ttl); [|lia].
  destruct (Z.ltb_spec (t2 - writtenAt) ttl); [lia|].
  repeat split. now apply get_delete_same.
Qed.

(** The caching test of the repository: an entry with a 10 ms timeout is
    read back at once and is gone after 15 ms. *)
Lemma getCache_after_setCache_witness :
  let c' := setCache (JsMap.empty (Entry nat)) (str "expire") 7
              (Some 10%Z) 1000%Z in
  getCache c' (str "expire") 1000%Z = (Some 7, c') /\
  getCache c' (str "expire") 1015%Z = (None, JsMap.delete (str "expire") c') /\
  JsMap.get (str "expire") (JsMap.delete (str "expire") c') = None.
Proof.
  apply (@getCache_after_setCache nat (JsMap.empty _) (str "expire") 7
           10%Z 1000%Z 1000%Z 1015%Z).
  - apply reach_new.
  - lia.
  - lia.
  - lia.
Defined.

(** A [timeout] of 0 is falsy: [getCache] falls back on the default five
    seconds, which is why the law above asks for [ttl > 0]. *)
Example getCache_zero_timeout :
  fst (getCache (setCache (JsMap.empty (Entry nat)) (str "k") 7 (Some 0%Z)
                   1000%Z) (str "k") 5999%Z) = Some 7.
Proof. vm_compute. reflexivity. Qed.

(** C4. After any history of calls, a further [setCache] leaves at most
    ten keys in the table; and when it writes a new key to a table of ten,
    exactly one entry goes, the one inserted before all the others, and
    the new entry comes last: the outcome is that of deleting the oldest
    key and then writing the new one. Reading a key does not renew it. *)
Theorem setCache_bounded_fifo (V : Type) (ops : list (op V))
    (key : jsstring) (data : V) (timeout : option Z) (now : Z) :
  let c := run ops in
  let c' := setCache c key data timeout now in
  JsMap.size c' <= 10 /\
  NoDup (JsMap.keys c') /\
  (JsMap.size c = 10 -> JsMap.get key c = None ->
   exists oldest entry rest,
     c = (oldest, entry) :: rest /\
     c' = rest ++ [(key, written data timeout now)] /\
     c' = JsMap.set key (written data timeout now) (JsMap.delete oldest c) /\
     forall k, In k (JsMap.keys rest) -> insertedBefore ops oldest k).
Proof.
  cbv zeta. pose proof (reachable_wf (run_reachable ops)) as Hr.
  destruct (@wf_setCache _ (run ops) key data timeout now Hr) as [Hnd' Hsz'].
  split; [assumption|]. split; [assumption|].
  intros Hfull Hnew. destruct Hr as [Hnd Hsz].
  rewrite setCache_cases by assumption. rewrite Hnew.
  destruct (Nat.ltb_spec (JsMap.size (run ops)) 10); [lia|].
  destruct (run ops) as [|[oldest entry] rest] eqn:E; [discriminate|].
  exists oldest, entry, rest. split; [reflexivity|]. split; [reflexivity|].
  split.
  - rewrite delete_first. simpl. symmetry. apply set_new.
    simpl in Hnew. destruct (eqb oldest key); [discriminate|assumption].
  - exact (@oldest_first V ops oldest entry rest E).
Qed.

(** Key 0 is written first and read last; the eleventh key evicts it all
    the same. *)
Lemma setCache_bounded_fifo_witness :
  let ops := fill ++ [@op_get nat (ofZ 0) 10%Z] in
  let c' := setCache (run ops) (str "new") 99 None 11%Z in
  JsMap.size c' <= 10 /\
  JsMap.keys (run ops) = map (fun i => ofZ (Z.of_nat i)) (seq 0 10) /\
  JsMap.keys c'
  = map (fun i => ofZ (Z.of_nat i)) (seq 1 9) ++ [str "new"] /\
  exists oldest entry rest,
    run ops = (oldest, entry) :: rest /\
    forall k, In k (JsMap.keys rest) -> insertedBefore ops oldest k.
Proof.
  cbv zeta.
  destruct (@setCache_bounded_fifo nat (fill ++ [@op_get nat (ofZ 0) 10%Z])
              (str "new") 99 None 11%Z) as (Hsz & _ & Hfifo).
  split; [exact Hsz|]. split; [vm_compute; reflexivity|].
  split; [vm_compute; reflexivity|].
  destruct Hfifo as (oldest & entry & rest & E & _ & _ & Hold);
    [vm_compute; reflexivity|vm_compute; reflexivity|].
  exists oldest, entry, rest. split; [exact E|exact Hold].
Defined.

End CacheLaws.

(* ================================================================== *)
(** * The differ *)
(* ================================================================== *)

Module DifferLaws.
Import Facets Exn Differ DifferSpec JSFacts JsMapFacts.

Lemma arrayIncludes_spec ks k : JsMap.arrayIncludes ks k = true <-> In k ks.
Proof.
  unfold JsMap.arrayIncludes. rewrite existsb_exists. split.
  - intros (k' & Hin & E). apply eqb_eq in E. congruence.
  - intros Hin. exists k. split; [assumption|apply eqb_refl].
Qed.

Lemma keys_get V (m : JsMap.t V) k :
  In k (JsMap.keys m) <-> JsMap.get k m <> None.
Proof.
  pose proof (get_None_keys m k) as H. split.
  - intros Hin E. now apply H in E.
  - intros Hne.
    destruct (in_dec (list_eq_dec N.eq_dec) k (JsMap.keys m)) as [Hin|Hnin];
      [assumption|].
    now apply H in Hnin.
Qed.

Lemma filter_nil A (f : A -> bool) l :
  (forall y, In y l -> f y = false) -> filter f l = [].
Proof.
  induction l as [|a l IH]; simpl; intros H; [reflexivity|].
  rewrite (H a) by now left. apply IH. intros; apply H; now right.
Qed.

Lemma filter_singleton A (f : A -> bool) l x :
  NoDup l -> In x l ->
  (forall y, In y l -> (f y = true <-> y = x)) ->
  filter f l = [x].
Proof.
  induction l as [|a l IH]; intros Hnd Hin Hf; [destruct Hin|].
  inversion Hnd as [|? ? Ha Hnd']; subst. simpl.
  destruct (f a) eqn:E.
  - apply (Hf a) in E; [|now left]. subst a. f_equal.
    apply filter_nil. intros y Hy.
    destruct (f y) eqn:Ey; [|reflexivity].
    apply (Hf y) in Ey; [|now right]. congruence.
  - destruct Hin as [->|Hin].
    + assert (f x = true) by (apply Hf; [now left|reflexivity]). congruence.
    + apply IH; try assumption. intros y Hy. apply Hf. now right.
Qed.

(** The first loop pushes one event for each key of [before] that [after]
    lacks, in order, and does not throw. *)
Lemma crashed_closed beforeProcesses afterProcesses before changes :
  (forall k, In k beforeProcesses -> JsMap.get k before <> None) ->
  crashed beforeProcesses afterProcesses before changes
  = Ok (changes ++ map (fun k => process_crashed k (pidAt before k))
                     (missingFrom afterProcesses beforeProcesses)).
Proof.
  revert changes.
  induction beforeProcesses as [|k ks IH]; intros changes Hk; simpl.
  - now rewrite app_nil_r.
  - destruct (JsMap.arrayIncludes afterProcesses k); simpl.
    + apply IH. intros; apply Hk; now right.
    + unfold pidOf, pidAt.
      destruct (JsMap.get k before) eqn:E;
        [|exfalso; now apply (Hk k); [left|]].
      simpl. rewrite IH by (intros; apply Hk; now right).
      now rewrite <- app_assoc.
Qed.

Lemma started_closed afterProcesses beforeProcesses after changes :
  (forall k, In k afterProcesses -> JsMap.get k after <> None) ->
  started afterProcesses beforeProcesses after changes
  = Ok (changes ++ map (fun k => process_started k (pidAt after k))
                     (missingFrom beforeProcesses afterProcesses)).
Proof.
  revert changes.
  induction afterProcesses as [|k ks IH]; intros changes Hk; simpl.
  - now rewrite app_nil_r.
  - destruct (JsMap.arrayIncludes beforeProcesses k); simpl.
    + apply IH. intros; apply Hk; now right.
    + unfold pidOf, pidAt.
      destruct (JsMap.get k after) eqn:E;
        [|exfalso; now apply (Hk k); [left|]].
      simpl. rewrite IH by (intros; apply Hk; now right).
      now rewrite <- app_assoc.
Qed.

Lemma missingFrom_none others ks :
  (forall k, In k ks -> In k others) -> missingFrom others ks = [].
Proof.
  intros H. unfold missingFrom. induction ks as [|k ks IH]; simpl; [reflexivity|].
  assert (E : JsMap.arrayIncludes others k = true)
    by (apply arrayIncludes_spec, H; now left).
  rewrite E. simpl. apply IH. intros; apply H; now right.
Qed.

Lemma missingFrom_one others ks role :
  NoDup ks -> In role ks ->
  (forall k, In k others <-> In k ks /\ k <> role) ->
  missingFrom others ks = [role].
Proof.
  intros Hnd Hin Hothers. apply filter_singleton; try assumption.
  intros k Hk. rewrite negb_true_iff.
  destruct (JsMap.arrayIncludes others k) eqn:E.
  - apply arrayIncludes_spec, Hothers in E as [_ Hne].
    split; [discriminate|congruence].
  - split; [intros _|reflexivity].
    destruct (list_eq_dec N.eq_dec k role) as [|Hne]; [assumption|].
    assert (Hin' : In k others) by (apply Hothers; auto).
    apply arrayIncludes_spec in Hin'. congruence.
Qed.

(** One pass of the network loop either goes on or throws a [TypeError]. *)
Lemma networkEntry_Err endpoint beforeStatus afterNetwork changes e :
  networkEntry endpoint beforeStatus afterNetwork changes = Err e ->
  e = TypeError.
Proof.
  unfold networkEntry, healthyOf, portOf.
  destruct (JsMap.read endpoint afterNetwork) as [a| |];
    destruct (healthy beforeStatus); simpl;
    try destruct (healthy a); simpl; congruence.
Qed.

(** A lookup that finds an own property. *)
Lemma read_own V (m : JsMap.t V) k v :
  JsMap.get k m = Some v -> JsMap.read k m = JsMap.own v.
Proof. intros E. unfold JsMap.read. now rewrite E. Qed.

(** A lookup gives [undefined] exactly for a name that is neither an own
    property nor a property of [Object.prototype]. *)
Lemma read_undefined V (m : JsMap.t V) k :
  JsMap.read k m = JsMap.undefined <->
  JsMap.get k m = None /\ ~ In k JsMap.objectPrototypeKeys.
Proof.
  unfold JsMap.read. destruct (JsMap.get k m) as [v|].
  - split; [discriminate|intros [E _]; discriminate].
  - destruct (existsb _ _) eqn:E.
    + split; [discriminate|]. intros [_ H]. destruct H.
      apply existsb_exists in E. destruct E as (k' & Hin & Ek).
      apply eqb_eq in Ek. now subst.
    + split; [|reflexivity]. intros _. split; [reflexivity|].
      intros Hin. assert (H : existsb (fun k' => eqb k' k)
                                JsMap.objectPrototypeKeys = true).
      { apply existsb_exists. exists k. split; [exact Hin|apply eqb_refl]. }
      congruence.
Qed.

(** An entry whose endpoint reads as [undefined] in the other map makes
    the pass throw. *)
Lemma networkEntry_missing endpoint beforeStatus afterNetwork changes :
  JsMap.read endpoint afterNetwork = JsMap.undefined ->
  networkEntry endpoint beforeStatus afterNetwork changes = Err TypeError.
Proof.
  intros E. unfold networkEntry. rewrite E.
  destruct (healthy beforeStatus); reflexivity.
Qed.

(** An entry whose health did not change pushes nothing. *)
Lemma networkEntry_steady endpoint beforeStatus afterStatus afterNetwork changes :
  JsMap.get endpoint afterNetwork = Some afterStatus ->
  healthy afterStatus = healthy beforeStatus ->
  networkEntry endpoint beforeStatus afterNetwork changes = Ok changes.
Proof.
  intros E H. unfold networkEntry. rewrite (read_own _ _ E). simpl.
  rewrite H. destruct (healthy beforeStatus); reflexivity.
Qed.

Lemma networkLoop_steady entries afterNetwork changes :
  (forall k s, In (k, s) entries ->
     exists s', JsMap.get k afterNetwork = Some s' /\ healthy s' = healthy s) ->
  networkLoop entries afterNetwork changes = Ok changes.
Proof.
  induction entries as [|[k s] entries IH]; intros H; simpl; [reflexivity|].
  destruct (H k s) as (s' & E & Hs); [now left|].
  rewrite (@networkEntry_steady k s s' afterNetwork changes E Hs). simpl.
  apply IH. intros; apply H; now right.
Qed.

Lemma networkLoop_same network changes :
  NoDup (JsMap.keys network) -> networkLoop network network changes = Ok changes.
Proof.
  intros Hnd. apply networkLoop_steady. intros k s Hin.
  exists s. split; [now apply In_get|reflexivity].
Qed.

Lemma networkLoop_missing entries afterNetwork changes k :
  In k (JsMap.keys entries) ->
  JsMap.read k afterNetwork = JsMap.undefined ->
  networkLoop entries afterNetwork changes = Err TypeError.
Proof.
  revert changes.
  induction entries as [|[k0 s0] entries IH]; intros changes Hin E;
    [destruct Hin|].
  simpl.
  destruct (networkEntry k0 s0 afterNetwork changes) as [changes'|e] eqn:En.
  - simpl. destruct Hin as [Hk|Hin].
    + simpl in Hk. subst k0.
      rewrite networkEntry_missing in En by assumption. discriminate.
    + now apply IH.
  - simpl. apply networkEntry_Err in En. now subst.
Qed.

Lemma own_keys V (m : JsMap.t V) k :
  In k (JsMap.keys m) -> JsMap.get k m <> None.
Proof. apply keys_get. Qed.

(** The two process loops never throw: they push the crashed roles, then
    the started ones, and the network and readiness checks go on from
    there. *)
Lemma detectStateChanges_processes Structure (before after : Snapshot Structure) :
  let pb := orEmpty (processes before) in
  let pa := orEmpty (processes after) in
  detectStateChanges before after
  = bind (match network before, network after with
          | Some beforeNetwork, Some afterNetwork =>
              networkLoop beforeNetwork afterNetwork
                (processEvents pb pa)
          | _, _ => Ok (processEvents pb pa)
          end) (fun changes =>
    match readiness before, readiness after with
    | Some beforeReadiness, Some afterReadiness =>
        if negb (Level_eqb (level beforeReadiness) (level afterReadiness))
        then Ok (changes ++ [readiness_changed (level beforeReadiness)
                               (level afterReadiness) (score afterReadiness)])
        else Ok changes
    | _, _ => Ok changes
    end).
Proof.
  cbv zeta. unfold detectStateChanges, processEvents.
  rewrite crashed_closed by apply own_keys. cbn [bind].
  rewrite started_closed by apply own_keys. cbn [bind app].
  reflexivity.
Qed.

Lemma Level_eqb_refl l : Level_eqb l l = true.
Proof. now destruct l. Qed.

Lemma same_level (a b : option Readiness) (changes : list Change) :
  option_map level a = option_map level b ->
  match a, b with
  | Some beforeReadiness, Some afterReadiness =>
      if negb (Level_eqb (level beforeReadiness) (level afterReadiness))
      then Ok (changes ++ [readiness_changed (level beforeReadiness)
                             (level afterReadiness) (score afterReadiness)])
      else Ok changes
  | _, _ => Ok changes
  end = Ok changes.
Proof.
  destruct a as [a|], b as [b|]; simpl; try reflexivity.
  intros [= ->]. now rewrite Level_eqb_refl.
Qed.

(** The order of the events: crashed, started, network in the order of
    the previous map, readiness. *)
Example detectStateChanges_all_changed :
  detectStateChanges both_running all_changed
  = Ok [process_crashed (str "vite") (Some (str "4242"));
        process_started (str "next") (Some (str "4300"));
        network_down (str "vite") (Some 5173%Z);
        network_up (str "convex") (Some 3210%Z);
        readiness_changed ready partial 70].
Proof. vm_compute. reflexivity. Qed.

(** C5. Two snapshots with the same process map, the same network map and
    the same readiness level give no event; so does a snapshot compared
    with itself. *)
Theorem detectStateChanges_unchanged (Structure : Type)
    (before after : Snapshot Structure) :
  NoDup (JsMap.keys (orEmpty (network before))) ->
  processes before = processes after ->
  network before = network after ->
  option_map level (readiness before) = option_map level (readiness after) ->
  detectStateChanges before after = Ok []
  /\ detectStateChanges before before = Ok [].
Proof.
  assert (Hsame : forall a b : Snapshot Structure,
    NoDup (JsMap.keys (orEmpty (network a))) ->
    processes a = processes b -> network a = network b ->
    option_map level (readiness a) = option_map level (readiness b) ->
    detectStateChanges a b = Ok []).
  { intros a b Hnd Hp Hn Hl. rewrite detectStateChanges_processes.
    cbv zeta. rewrite <- Hp, <- Hn.
    assert (Hev : processEvents (orEmpty (processes a)) (orEmpty (processes a)) = []).
    { unfold processEvents.
      rewrite !missingFrom_none by auto. reflexivity. }
    rewrite Hev.
    destruct (network a) as [n|]; cbn [orEmpty] in Hnd.
    - rewrite networkLoop_same by assumption. cbn [bind].
      now apply same_level.
    - cbn [bind]. now apply same_level. }
  intros Hnd Hp Hn Hl. split; [now apply Hsame|].
  now apply Hsame.
Qed.

Lemma detectStateChanges_unchanged_witness :
  detectStateChanges both_running both_running = Ok []
  /\ detectStateChanges both_running both_running = Ok [].
Proof.
  apply (@detectStateChanges_unchanged unit both_running both_running).
  - repeat constructor; simpl; intuition discriminate.
  - reflexivity.
  - reflexivity.
  - reflexivity.
Defined.

(** C6. When the snapshots differ only in that one role of the previous
    process map is missing from the current one, the single event is the
    crash of that role, with the pid the previous snapshot had for it. *)
Theorem detectStateChanges_one_crash (Structure : Type)
    (before after : Snapshot Structure) (role : jsstring) (p : Process) :
  let pb := orEmpty (processes before) in
  let pa := orEmpty (processes after) in
  NoDup (JsMap.keys pb) ->
  NoDup (JsMap.keys (orEmpty (network before))) ->
  JsMap.get role pb = Some p ->
  (forall k, JsMap.get k pa = if eqb k role then None else JsMap.get k pb) ->
  network before = network after ->
  option_map level (readiness before) = option_map level (readiness after) ->
  detectStateChanges before after = Ok [process_crashed role (pid p)].
Proof.
  cbv zeta. intros Hndp Hndn Hrole Hpa Hn Hl.
  rewrite detectStateChanges_processes. cbv zeta. rewrite <- Hn.
  assert (Hkeys : forall k,
    In k (JsMap.keys (orEmpty (processes after))) <->
    In k (JsMap.keys (orEmpty (processes before))) /\ k <> role).
  { intros k. rewrite !keys_get, Hpa.
    destruct (eqb k role) eqn:E.
    - apply eqb_eq in E. intuition congruence.
    - apply eqb_neq in E. tauto. }
  assert (Hev : processEvents (orEmpty (processes before))
                  (orEmpty (processes after))
                = [process_crashed role (pid p)]).
  { unfold processEvents.
    rewrite (@missingFrom_one _ _ role); try assumption.
    - rewrite missingFrom_none by (intros k Hk; now apply Hkeys in Hk).
      simpl. unfold pidAt. now rewrite Hrole.
    - apply keys_get. congruence. }
  rewrite Hev.
  destruct (network before) as [n|]; cbn [orEmpty] in Hndn.
  - rewrite networkLoop_same by assumption. cbn [bind].
    now apply same_level.
  - cbn [bind]. now apply same_level.
Qed.

Lemma detectStateChanges_one_crash_witness :
  detectStateChanges both_running convex_gone
  = Ok [process_crashed (str "convex") (Some (str "4250"))].
Proof.
  apply (@detectStateChanges_one_crash unit both_running convex_gone
           (str "convex") convex).
  - repeat constructor; simpl; intuition discriminate.
  - repeat constructor; simpl; intuition discriminate.
  - reflexivity.
  - intros k. cbn [orEmpty processes convex_gone both_running snapshotOf
                   JsMap.get].
    destruct (eqb k (str "convex")) eqn:Ek.
    + apply eqb_eq in Ek. subst k. reflexivity.
    + destruct (eqb (str "vite") k); [reflexivity|].
      destruct (eqb (str "convex") k) eqn:Ec; [|reflexivity].
      apply eqb_eq in Ec. subst k. discriminate.
  - reflexivity.
  - reflexivity.
Defined.

(** Reading an endpoint that the current map neither holds nor inherits
    makes [detectStateChanges] throw. *)
Lemma detectStateChanges_unread (Structure : Type)
    (before after : Snapshot Structure)
    (beforeNetwork afterNetwork : JsMap.t NetStatus) (endpoint : jsstring) :
  network before = Some beforeNetwork ->
  network after = Some afterNetwork ->
  In endpoint (JsMap.keys beforeNetwork) ->
  JsMap.read endpoint afterNetwork = JsMap.undefined ->
  detectStateChanges before after = Err TypeError.
Proof.
  intros Hb Ha Hin Hget. rewrite detectStateChanges_processes. cbv zeta.
  rewrite Hb, Ha.
  now rewrite (@networkLoop_missing beforeNetwork afterNetwork _ endpoint).
Qed.

(** C7 as stated fails. The Convex endpoint is in the previous network
    map and absent from the current one, and [detectStateChanges] does not
    return a list: it throws. *)
Lemma detectStateChanges_absent_counterexample :
  In (str "convex") (JsMap.keys (orEmpty (network both_running))) /\
  JsMap.get (str "convex") (orEmpty (network endpoint_missing)) = None /\
  detectStateChanges both_running endpoint_missing = Err TypeError /\
  ~ (exists changes,
       detectStateChanges both_running endpoint_missing = Ok changes).
Proof.
  assert (E : detectStateChanges both_running endpoint_missing
              = Err TypeError) by (vm_compute; reflexivity).
  split; [right; left; reflexivity|]. split; [reflexivity|].
  split; [exact E|]. intros (changes & H). congruence.
Qed.

End DifferLaws.

(* ================================================================== *)
(** * The monitor *)
(* ================================================================== *)

Module MonitorLaws.
Import Facets Exn Monitor MonitorSpec.

Section MonitorLaws.
Variable Structure : Type.
Variable env : Env Structure.
Implicit Types (e : Engine Structure).

Lemma keepsFlag_ret A (a : A) : keepsFlag (@ret Structure A a).
Proof. intros e. reflexivity. Qed.

Lemma keepsFlag_throw A x : keepsFlag (@throw Structure A x).
Proof. intros e. reflexivity. Qed.

Lemma keepsFlag_mbind A B (m : M Structure A) (k : A -> M Structure B) :
  keepsFlag m -> (forall a, keepsFlag (k a)) -> keepsFlag (mbind m k).
Proof.
  intros Hm Hk e. unfold mbind. specialize (Hm e).
  destruct (m e) as [[a|x] e']; simpl in *; [|assumption].
  now rewrite Hk.
Qed.

Lemma keepsFlag_modify (f : Engine Structure -> Engine Structure) :
  (forall e, monitoring (f e) = monitoring e) -> keepsFlag (modify f).
Proof. intros H e. apply H. Qed.

Lemma keepsFlag_forEach A (xs : list A) (f : A -> M Structure unit) :
  (forall x, keepsFlag (f x)) -> keepsFlag (forEach xs f).
Proof.
  intros H. induction xs as [|x xs IH]; simpl.
  - apply keepsFlag_ret.
  - apply keepsFlag_mbind; auto.
Qed.

Lemma keepsFlag_scan : keepsFlag (scan env).
Proof.
  intros e. unfold scan.
  destruct (Cache.getCache _ _ _) as [[cached|] c]; [reflexivity|].
  destruct (probes env); reflexivity.
Qed.

Lemma keepsFlag_startLogWatcher logName :
  keepsFlag (startLogWatcher env logName).
Proof.
  intros e. unfold startLogWatcher. destruct (spawnTail env logName); reflexivity.
Qed.

Lemma keepsFlag_startProcessMonitoring interval :
  keepsFlag (startProcessMonitoring env interval).
Proof. intros e. reflexivity. Qed.

(** A start that returns leaves the flag set. *)
Lemma startMonitoring_Ok_active options e e' :
  startMonitoring env options e = (Ok tt, e') -> monitoring e' = true.
Proof.
  unfold startMonitoring. destruct (monitoring e) eqn:Hm; [discriminate|].
  unfold mbind at 1. cbn [modify]. unfold tryCatch.
  match goal with
  | |- context [match ?body ?s with _ => _ end] =>
      assert (Hkeep : monitoring (snd (body s)) = monitoring s);
      [|destruct (body s) as [[[]|x] e1] eqn:E]
  end.
  - repeat first
      [ apply keepsFlag_mbind; intros
      | apply keepsFlag_forEach; intros
      | apply keepsFlag_startLogWatcher
      | apply keepsFlag_scan
      | apply keepsFlag_ret
      | apply keepsFlag_modify; intros; reflexivity
      | match goal with |- keepsFlag (if ?b then _ else _) => destruct b end
      | apply keepsFlag_startProcessMonitoring ].
  - intros [= <-]. exact Hkeep.
  - unfold mbind, modify, throw. discriminate.
Qed.

End MonitorLaws.

(** C9. A [startMonitoring] on an engine whose monitoring flag is set
    throws "Monitoring already active" and leaves the engine as it was:
    flag, log watchers, timer, baseline, cache and emitted events. *)
Theorem startMonitoring_already_active (Structure : Type)
    (env : Env Structure) (options : Options) (e : Engine Structure) :
  monitoring e = true ->
  startMonitoring env options e
  = (Err (Error_ (str "Monitoring already active")), e).
Proof.
  intros H. unfold startMonitoring. rewrite H. reflexivity.
Qed.

(** Two starts in succession: the first sets up four log watchers and the
    timer, the second throws and changes nothing. *)
Lemma startMonitoring_already_active_witness :
  startMonitoring calm noOptions started_once
  = (Err (Error_ (str "Monitoring already active")), started_once).
Proof.
  apply (@startMonitoring_already_active unit calm noOptions started_once).
  vm_compute. reflexivity.
Defined.

Lemma startMonitoring_twice (Structure : Type)
    (env1 env2 : Env Structure) (o1 o2 : Options) (e0 e1 : Engine Structure) :
  startMonitoring env1 o1 e0 = (Ok tt, e1) ->
  startMonitoring env2 o2 e1
  = (Err (Error_ (str "Monitoring already active")), e1).
Proof.
  intros H. unfold startMonitoring.
  now rewrite (startMonitoring_Ok_active _ _ _ H).
Qed.

Example started_once_watchers :
  fst (startMonitoring calm noOptions (initial unit)) = Ok tt /\
  JsMap.keys (logWatchers started_once)
  = [str "dev-server"; str "build"; str "test"; str "convex"] /\
  processMonitor started_once = Some {| timer_id := 1; every := 5000 |} /\
  monitoring started_once = true.
Proof. vm_compute. repeat split; reflexivity. Qed.

End MonitorLaws.

(* ================================================================== *)
(** * More on the differ *)
(* ================================================================== *)

Module DifferMore.
Import Facets Exn Differ DifferSpec DiffSpec JSFacts JsMapFacts DifferLaws.

Lemma networkEntry_present endpoint beforeStatus a afterNetwork changes :
  JsMap.get endpoint afterNetwork = Some a ->
  networkEntry endpoint beforeStatus afterNetwork changes
  = Ok (changes ++
        if healthy beforeStatus && negb (healthy a)
        then [network_down endpoint (Some (port a))]
        else if negb (healthy beforeStatus) && healthy a
        then [network_up endpoint (Some (port a))]
        else []).
Proof.
  intros E. unfold networkEntry. rewrite (read_own _ _ E). simpl.
  destruct (healthy beforeStatus), (healthy a); simpl;
    now rewrite ?app_nil_r.
Qed.

(** An endpoint that the current map only inherits reads as unhealthy,
    without a port. *)
Lemma networkEntry_inherited endpoint beforeStatus afterNetwork changes :
  JsMap.read endpoint afterNetwork = JsMap.inherited ->
  networkEntry endpoint beforeStatus afterNetwork changes
  = Ok (changes ++
        if healthy beforeStatus then [network_down endpoint None] else []).
Proof.
  intros E. unfold networkEntry. rewrite E. simpl.
  destruct (healthy beforeStatus); simpl; now rewrite ?app_nil_r.
Qed.

Lemma read_get V (m : JsMap.t V) k v :
  JsMap.read k m = JsMap.own v -> JsMap.get k m = Some v.
Proof.
  unfold JsMap.read. destruct (JsMap.get k m); [congruence|].
  destruct (existsb _ _); discriminate.
Qed.

Lemma networkLoop_readable entries afterNetwork changes :
  (forall k, In k (JsMap.keys entries) ->
     JsMap.read k afterNetwork <> JsMap.undefined) ->
  networkLoop entries afterNetwork changes
  = Ok (changes ++ networkSeen entries afterNetwork).
Proof.
  revert changes. induction entries as [|[k b] entries IH]; intros changes H.
  - simpl. now rewrite app_nil_r.
  - cbn [networkLoop networkSeen flat_map fst snd].
    destruct (JsMap.read k afterNetwork) as [a| |] eqn:E.
    + rewrite (@networkEntry_present k b a afterNetwork changes
                 (read_get _ _ E)).
      cbn [bind]. rewrite IH by (intros; apply H; now right).
      unfold networkSeen. now rewrite <- app_assoc.
    + rewrite (@networkEntry_inherited k b afterNetwork changes E).
      cbn [bind]. rewrite IH by (intros; apply H; now right).
      unfold networkSeen. now rewrite <- app_assoc.
    + exfalso. apply (H k); [now left|assumption].
Qed.

(** The network loop throws a [TypeError] unless every endpoint of the
    previous map can be read from the current one. *)
Lemma networkLoop_cases entries afterNetwork : forall changes,
  networkLoop entries afterNetwork changes = Err TypeError \/
  forall k, In k (JsMap.keys entries) ->
            JsMap.read k afterNetwork <> JsMap.undefined.
Proof.
  induction entries as [|[k0 s0] entries IH]; intros changes.
  - right. intros k [].
  - cbn [networkLoop].
    destruct (JsMap.read k0 afterNetwork) as [a| |] eqn:E.
    + rewrite (@networkEntry_present k0 s0 a afterNetwork changes
                 (read_get _ _ E)).
      cbn [bind].
      match goal with
      | |- networkLoop _ _ ?c = _ \/ _ => destruct (IH c) as [H|H]
      end.
      * now left.
      * right. intros k [Hk|Hk];
          [cbn in Hk; subst k; congruence|now apply H].
    + rewrite (@networkEntry_inherited k0 s0 afterNetwork changes E).
      cbn [bind].
      match goal with
      | |- networkLoop _ _ ?c = _ \/ _ => destruct (IH c) as [H|H]
      end.
      * now left.
      * right. intros k [Hk|Hk];
          [cbn in Hk; subst k; congruence|now apply H].
    + left. now rewrite networkEntry_missing.
Qed.

(** Where the current map holds every endpoint, nothing is inherited. *)
Lemma networkSeen_covered entries afterNetwork :
  (forall k, In k (JsMap.keys entries) -> JsMap.get k afterNetwork <> None) ->
  networkSeen entries afterNetwork = networkEvents entries afterNetwork.
Proof.
  induction entries as [|[k b] entries IH]; intros H; [reflexivity|].
  cbn [networkSeen networkEvents flat_map fst snd].
  fold (networkSeen entries afterNetwork).
  fold (networkEvents entries afterNetwork).
  rewrite IH by (intros; apply H; now right).
  destruct (JsMap.get k afterNetwork) as [a|] eqn:E.
  - now rewrite (read_own _ _ E).
  - exfalso. apply (H k); [now left|exact E].
Qed.

Lemma networkLoop_covered entries afterNetwork changes :
  (forall k, In k (JsMap.keys entries) -> JsMap.get k afterNetwork <> None) ->
  networkLoop entries afterNetwork changes
  = Ok (changes ++ networkEvents entries afterNetwork).
Proof.
  revert changes. induction entries as [|[k b] entries IH]; intros changes H.
  - simpl. now rewrite app_nil_r.
  - cbn [networkLoop networkEvents flat_map fst snd].
    destruct (JsMap.get k afterNetwork) as [a|] eqn:E;
      [|exfalso; apply (H k); [now left|assumption]].
    rewrite (@networkEntry_present k b a afterNetwork changes E).
    cbn [bind]. rewrite IH by (intros; apply H; now right).
    unfold networkEvents. now rewrite <- app_assoc.
Qed.

Lemma readiness_tail (rb ra : option Readiness) (changes : list Change) :
  match rb, ra with
  | Some beforeReadiness, Some afterReadiness =>
      if negb (Level_eqb (level beforeReadiness) (level afterReadiness))
      then Ok (changes ++ [readiness_changed (level beforeReadiness)
                             (level afterReadiness) (score afterReadiness)])
      else Ok changes
  | _, _ => Ok changes
  end = Ok (changes ++ readinessEvents rb ra).
Proof.
  unfold readinessEvents. destruct rb as [b|], ra as [a|];
    rewrite ?app_nil_r; try reflexivity.
  destruct (Level_eqb (level b) (level a)); simpl;
    now rewrite ?app_nil_r.
Qed.

Lemma detectStateChanges_covered (Structure : Type)
    (before after : Snapshot Structure) :
  covered before after ->
  detectStateChanges before after = Ok (expected before after).
Proof.
  intros Hc. rewrite detectStateChanges_processes. cbv zeta.
  unfold covered, expected in *.
  destruct (network before) as [bn|], (network after) as [an|];
    try (cbn [bind]; rewrite readiness_tail; now rewrite ?app_nil_l).
  rewrite networkLoop_covered by assumption. cbn [bind].
  rewrite readiness_tail. now rewrite app_assoc.
Qed.

Lemma detectStateChanges_readable (Structure : Type)
    (before after : Snapshot Structure) :
  readable before after ->
  detectStateChanges before after = Ok (observed before after).
Proof.
  intros Hc. rewrite detectStateChanges_processes. cbv zeta.
  unfold readable, observed in *.
  destruct (network before) as [bn|], (network after) as [an|];
    try (cbn [bind]; rewrite readiness_tail; now rewrite ?app_nil_l).
  rewrite networkLoop_readable by assumption. cbn [bind].
  rewrite readiness_tail. now rewrite app_assoc.
Qed.

Lemma detectStateChanges_unreadable (Structure : Type)
    (before after : Snapshot Structure) :
  ~ readable before after -> detectStateChanges before after = Err TypeError.
Proof.
  intros Hc. rewrite detectStateChanges_processes. cbv zeta.
  unfold readable in Hc.
  destruct (network before) as [bn|]; [|now destruct Hc].
  destruct (network after) as [an|]; [|now destruct Hc].
  destruct (@networkLoop_cases bn an
              (processEvents (orEmpty (processes before))
                             (orEmpty (processes after)))) as [H|H].
  - now rewrite H.
  - now destruct Hc.
Qed.

Lemma covered_readable (Structure : Type)
    (before after : Snapshot Structure) :
  covered before after -> readable before after.
Proof.
  unfold covered, readable.
  destruct (network before) as [bn|], (network after) as [an|]; auto.
  intros H k Hk E. apply read_undefined in E. destruct E as [E _].
  now apply (H k).
Qed.

Lemma observed_covered (Structure : Type)
    (before after : Snapshot Structure) :
  covered before after -> observed before after = expected before after.
Proof.
  unfold covered, observed, expected.
  destruct (network before) as [bn|], (network after) as [an|]; auto.
  intros H. now rewrite networkSeen_covered.
Qed.

(** X1. When every endpoint of the previous network map is in the
    current one, [detectStateChanges] returns, and returns the crashed
    roles, then the started roles, then the health flips in the order of
    the previous map, then the readiness change. *)
Theorem detectStateChanges_expected (Structure : Type)
    (before after : Snapshot Structure) :
  covered before after ->
  detectStateChanges before after = Ok (expected before after).
Proof.
  intros Hc. now apply detectStateChanges_covered.
Qed.

Lemma detectStateChanges_expected_witness :
  detectStateChanges both_running all_changed
  = Ok (expected both_running all_changed).
Proof.
  apply (@detectStateChanges_expected unit both_running all_changed).
  intros k Hk. cbn in Hk |- *.
  destruct Hk as [<-|[<-|[]]]; vm_compute; discriminate.
Defined.

(** X2. [detectStateChanges] returns a list exactly when every endpoint
    of the previous network map can be read from the current one: the
    current map holds it, or it is the name of a property every object
    inherits ("constructor", "toString", ...), which then counts as an
    unhealthy endpoint without a port. Otherwise it throws a
    [TypeError]. *)
Theorem detectStateChanges_returns_iff (Structure : Type)
    (before after : Snapshot Structure) :
  ((exists changes, detectStateChanges before after = Ok changes)
   <-> readable before after) /\
  (readable before after ->
   detectStateChanges before after = Ok (observed before after)) /\
  (~ readable before after ->
   detectStateChanges before after = Err TypeError) /\
  (readable before after <->
   match network before, network after with
   | Some beforeNetwork, Some afterNetwork =>
       forall k, In k (JsMap.keys beforeNetwork) ->
         JsMap.get k afterNetwork <> None \/
         In k JsMap.objectPrototypeKeys
   | _, _ => True
   end).
Proof.
  split; [split|split; [|split]].
  - intros (changes & E). unfold readable.
    destruct (network before) as [bn|] eqn:Hb; [|exact I].
    destruct (network after) as [an|] eqn:Ha; [|exact I].
    intros k Hk Hget.
    rewrite detectStateChanges_processes in E. cbv zeta in E.
    rewrite Hb, Ha in E.
    rewrite (@networkLoop_missing bn an _ k Hk Hget) in E. discriminate.
  - intros Hc. eexists. now apply detectStateChanges_readable.
  - apply detectStateChanges_readable.
  - apply detectStateChanges_unreadable.
  - unfold readable.
    destruct (network before) as [bn|]; [|tauto].
    destruct (network after) as [an|]; [|tauto].
    split; intros H k Hk.
    + specialize (H k Hk). unfold JsMap.read in H.
      destruct (JsMap.get k an) as [a|]; [left; discriminate|].
      destruct (existsb _ _) eqn:E; [|now destruct H].
      right. apply existsb_exists in E. destruct E as (k' & Hin & Ek).
      apply eqb_eq in Ek. now subst.
    + intros E. apply read_undefined in E. destruct E as [E Hn].
      destruct (H k Hk) as [Hg|Hi]; [now apply Hg|now apply Hn].
Qed.

(** An endpoint called "constructor" that the current map lacks: no
    throw; it is reported down when it was healthy, and not at all when it
    was not. *)
Example detectStateChanges_constructor :
  detectStateChanges (DiffScenes.with_constructor (up 3210 "convex"))
                     endpoint_missing
  = Ok [network_down (str "constructor") None] /\
  detectStateChanges (DiffScenes.with_constructor (down 3210 "convex"))
                     endpoint_missing
  = Ok [].
Proof. split; vm_compute; reflexivity. Qed.

Lemma processEvents_same_roles (pb pa : JsMap.t Process) :
  (forall k, In k (JsMap.keys pb) <-> In k (JsMap.keys pa)) ->
  processEvents pb pa = [].
Proof.
  intros H. unfold processEvents.
  rewrite !missingFrom_none by (intros k Hk; now apply H). reflexivity.
Qed.

(** X3. When the snapshots differ only in that a role absent from the
    previous process map is in the current one, the single event is the
    start of that role, with the pid of the current snapshot. *)
Theorem detectStateChanges_one_start (Structure : Type)
    (before after : Snapshot Structure) (role : jsstring) (p : Process) :
  let pb := orEmpty (processes before) in
  let pa := orEmpty (processes after) in
  NoDup (JsMap.keys pa) ->
  NoDup (JsMap.keys (orEmpty (network before))) ->
  JsMap.get role pa = Some p ->
  (forall k, JsMap.get k pb = if eqb k role then None else JsMap.get k pa) ->
  network before = network after ->
  option_map level (readiness before) = option_map level (readiness after) ->
  detectStateChanges before after = Ok [process_started role (pid p)].
Proof.
  cbv zeta. intros Hndp Hndn Hrole Hpb Hn Hl.
  rewrite detectStateChanges_processes. cbv zeta. rewrite <- Hn.
  assert (Hkeys : forall k,
    In k (JsMap.keys (orEmpty (processes before))) <->
    In k (JsMap.keys (orEmpty (processes after))) /\ k <> role).
  { intros k. rewrite !keys_get, Hpb.
    destruct (eqb k role) eqn:E.
    - apply eqb_eq in E. intuition congruence.
    - apply eqb_neq in E. tauto. }
  assert (Hev : processEvents (orEmpty (processes before))
                  (orEmpty (processes after))
                = [process_started role (pid p)]).
  { unfold processEvents.
    rewrite missingFrom_none by (intros k Hk; now apply Hkeys in Hk).
    rewrite (@missingFrom_one (JsMap.keys (orEmpty (processes before)))
               (JsMap.keys (orEmpty (processes after))) role);
      try assumption.
    - simpl. unfold pidAt. now rewrite Hrole.
    - apply keys_get. congruence. }
  rewrite Hev.
  destruct (network before) as [n|]; cbn [orEmpty] in Hndn.
  - rewrite networkLoop_same by assumption. cbn [bind].
    now apply same_level.
  - cbn [bind]. now apply same_level.
Qed.

Lemma detectStateChanges_one_start_witness :
  detectStateChanges convex_gone both_running
  = Ok [process_started (str "convex") (Some (str "4250"))].
Proof.
  apply (@detectStateChanges_one_start unit convex_gone both_running
           (str "convex") convex).
  - repeat constructor; simpl; intuition discriminate.
  - repeat constructor; simpl; intuition discriminate.
  - reflexivity.
  - intros k. cbn [orEmpty processes convex_gone both_running snapshotOf
                   JsMap.get].
    destruct (eqb k (str "convex")) eqn:Ek.
    + apply eqb_eq in Ek. subst k. reflexivity.
    + destruct (eqb (str "vite") k); [reflexivity|].
      destruct (eqb (str "convex") k) eqn:Ec; [|reflexivity].
      apply eqb_eq in Ec. subst k. discriminate.
  - reflexivity.
  - reflexivity.
Defined.

(** X4. A role that is in both snapshots is not looked at again: when the
    two process maps have the same roles, whatever their pids and ports,
    and the network map and the readiness level are the same, there is no
    event. A restart between two snapshots goes unreported. *)
Theorem detectStateChanges_same_roles (Structure : Type)
    (before after : Snapshot Structure) :
  (forall k, In k (JsMap.keys (orEmpty (processes before))) <->
             In k (JsMap.keys (orEmpty (processes after)))) ->
  NoDup (JsMap.keys (orEmpty (network before))) ->
  network before = network after ->
  option_map level (readiness before) = option_map level (readiness after) ->
  detectStateChanges before after = Ok [].
Proof.
  intros Hroles Hnd Hn Hl.
  rewrite detectStateChanges_processes. cbv zeta. rewrite <- Hn.
  rewrite processEvents_same_roles by assumption.
  destruct (network before) as [n|]; cbn [orEmpty] in Hnd.
  - rewrite networkLoop_same by assumption. cbn [bind].
    now apply same_level.
  - cbn [bind]. now apply same_level.
Qed.

Lemma detectStateChanges_same_roles_witness :
  detectStateChanges both_running DiffScenes.vite_restarted = Ok []
  /\ processes both_running <> processes DiffScenes.vite_restarted.
Proof.
  split; [|discriminate].
  apply (@detectStateChanges_same_roles unit both_running
           DiffScenes.vite_restarted).
  - intros k. reflexivity.
  - repeat constructor; simpl; intuition discriminate.
  - reflexivity.
  - reflexivity.
Defined.

Lemma networkEvents_steady (bn an : JsMap.t NetStatus) :
  (forall k s, In (k, s) bn ->
     exists s', JsMap.get k an = Some s' /\ healthy s' = healthy s) ->
  networkEvents bn an = [].
Proof.
  induction bn as [|[k s] bn IH]; intros H; [reflexivity|].
  cbn [networkEvents flat_map fst snd].
  destruct (H k s) as (s' & E & Hs); [now left|].
  rewrite E, Hs. destruct (healthy s); simpl;
    apply IH; intros; apply H; now right.
Qed.

Lemma networkEvents_one_flip (bn an : JsMap.t NetStatus) endpoint b a :
  NoDup (JsMap.keys bn) ->
  In (endpoint, b) bn ->
  JsMap.get endpoint an = Some a ->
  healthy a = negb (healthy b) ->
  (forall k s, In (k, s) bn -> k <> endpoint ->
     exists s', JsMap.get k an = Some s' /\ healthy s' = healthy s) ->
  networkEvents bn an
  = [if healthy b then network_down endpoint (Some (port a))
     else network_up endpoint (Some (port a))].
Proof.
  induction bn as [|[k s] bn IH]; intros Hnd Hin Ha Hflip Hrest;
    [destruct Hin|].
  inversion Hnd as [|? ? Hk Hnd']; subst.
  cbn [networkEvents flat_map fst snd].
  destruct Hin as [E|Hin].
  - injection E as -> ->. rewrite Ha, Hflip.
    fold (networkEvents bn an).
    rewrite networkEvents_steady.
    + destruct (healthy b); reflexivity.
    + intros k s Hks. apply Hrest; [now right|].
      intros ->. apply Hk. change endpoint with (fst (endpoint, s)).
      now apply in_map.
  - assert (Hne : k <> endpoint).
    { intros ->. apply Hk. change endpoint with (fst (endpoint, b)).
      now apply in_map. }
    destruct (Hrest k s) as (s' & E & Hs); [now left|assumption|].
    rewrite E, Hs. fold (networkEvents bn an).
    rewrite IH; try assumption.
    + destruct (healthy s); reflexivity.
    + intros k0 s0 Hin0. apply Hrest. now right.
Qed.

(** X5. When one endpoint changes health between two snapshots that have
    the same roles, the same readiness level and otherwise the same
    health, the single event is [network:down] (it was healthy) or
    [network:up] (it was not) for that endpoint, with the port of the
    current snapshot. *)
Theorem detectStateChanges_one_flip (Structure : Type)
    (before after : Snapshot Structure)
    (bn an : JsMap.t NetStatus) (endpoint : jsstring) (b a : NetStatus) :
  network before = Some bn ->
  network after = Some an ->
  NoDup (JsMap.keys bn) ->
  In (endpoint, b) bn ->
  JsMap.get endpoint an = Some a ->
  healthy a = negb (healthy b) ->
  (forall k s, In (k, s) bn -> k <> endpoint ->
     exists s', JsMap.get k an = Some s' /\ healthy s' = healthy s) ->
  (forall k, In k (JsMap.keys (orEmpty (processes before))) <->
             In k (JsMap.keys (orEmpty (processes after)))) ->
  option_map level (readiness before) = option_map level (readiness after) ->
  detectStateChanges before after
  = Ok [if healthy b then network_down endpoint (Some (port a))
        else network_up endpoint (Some (port a))].
Proof.
  intros Hb Ha Hnd Hin Hget Hflip Hrest Hroles Hl.
  rewrite detectStateChanges_processes. cbv zeta. rewrite Hb, Ha.
  rewrite processEvents_same_roles by assumption.
  rewrite networkLoop_covered.
  - cbn [bind app].
    rewrite (@networkEvents_one_flip bn an endpoint b a) by assumption.
    now apply same_level.
  - intros k Hk. apply in_map_iff in Hk as ((k' & s) & E & Hks).
    simpl in E. subst k'.
    destruct (list_eq_dec N.eq_dec k endpoint) as [->|Hne]; [congruence|].
    destruct (Hrest k s Hks Hne) as (s' & E & _). congruence.
Qed.

Lemma detectStateChanges_one_flip_witness :
  detectStateChanges both_running DiffScenes.convex_up
  = Ok [network_up (str "convex") (Some 3210%Z)].
Proof.
  apply (@detectStateChanges_one_flip unit both_running DiffScenes.convex_up
           [(str "vite", up 5173 "vite"); (str "convex", down 3210 "convex")]
           [(str "vite", up 5173 "vite"); (str "convex", up 3210 "convex")]
           (str "convex") (down 3210 "convex") (up 3210 "convex")).
  - reflexivity.
  - reflexivity.
  - repeat constructor; simpl; intuition discriminate.
  - right. left. reflexivity.
  - reflexivity.
  - reflexivity.
  - intros k s [E|[E|[]]] Hne.
    + injection E as <- <-. exists (up 5173 "vite"). split; reflexivity.
    + injection E as <- <-. congruence.
  - intros k. reflexivity.
  - reflexivity.
Defined.

End DifferMore.

(* ================================================================== *)
(** * More on the readiness *)
(* ================================================================== *)

Module ScoringMore.
Import Facets Scoring ScoringSpec IssueSpec ClassifierSpec JSFacts ScoringLaws.

(** The decimal numeral of an integer is made of digits and a sign. *)
Lemma string_of_uint_chars (d : Decimal.uint) :
  Forall (fun c => isDigit c = true)
         (str (NilEmpty.string_of_uint d)).
Proof.
  induction d; simpl; constructor; try assumption; reflexivity.
Qed.

Lemma ofZ_chars (n : Z) :
  Forall (fun c => isDigit c = true \/ c = 45%N) (ofZ n).
Proof.
  unfold ofZ.
  assert (H : forall d, Forall (fun c => isDigit c = true \/ c = 45%N)
                          (str (NilZero.string_of_uint d))).
  { intros d. unfold NilZero.string_of_uint.
    destruct d; try (repeat constructor; fail);
      (eapply Forall_impl; [|apply string_of_uint_chars]); auto. }
  destruct (Z.to_int n) as [d|d]; simpl.
  - apply H.
  - constructor; [now right|apply H].
Qed.

(** A string that includes [pat] has every code unit of [pat]. *)
Lemma includes_chars s pat c :
  includes s pat = true -> In c pat -> In c s.
Proof.
  unfold includes. intros H Hc.
  apply searchBy_spec in H as (pre & w & post & -> & R).
  apply reads_eqb in R. subst w.
  apply in_or_app. right. apply in_or_app. now left.
Qed.

Lemma includes_suffix a b pat :
  includes b pat = true -> includes (a ++ b) pat = true.
Proof.
  unfold includes. intros H.
  apply searchBy_spec in H as (pre & w & post & -> & R).
  apply searchBy_spec. exists (a ++ pre), w, post.
  split; [now rewrite app_assoc|assumption].
Qed.

(** A count followed by a text without capital letter includes neither
    "TypeScript" nor "Build". *)
Lemma count_not_critical n text :
  ~ In 84%N text -> ~ In 66%N text ->
  (includes (ofZ n ++ text) (str "TypeScript")
   || includes (ofZ n ++ text) (str "Build")) = false.
Proof.
  intros HT HB.
  assert (Hno : forall c, (c = 84 \/ c = 66)%N -> ~ In c text ->
                          ~ In c (ofZ n ++ text)).
  { intros c Hc Ht Hin. apply in_app_or in Hin as [Hin|Hin]; [|auto].
    pose proof (ofZ_chars n) as Hall. rewrite Forall_forall in Hall.
    destruct Hc as [-> | ->]; destruct (Hall _ Hin) as [Hd|Hd];
      discriminate. }
  apply orb_false_iff. split.
  - destruct (includes (ofZ n ++ text) (str "TypeScript")) eqn:E;
      [|reflexivity].
    exfalso. apply (Hno 84%N); auto.
    apply (@includes_chars _ (str "TypeScript") 84%N E). now left.
  - destruct (includes (ofZ n ++ text) (str "Build")) eqn:E; [|reflexivity].
    exfalso. apply (Hno 66%N); auto.
    apply (@includes_chars _ (str "Build") 66%N E). now left.
Qed.

Lemma lintIssue_not_critical q :
  filter (fun i => includes i (str "TypeScript") || includes i (str "Build"))
         (lintIssue q) = [].
Proof.
  unfold lintIssue.
  destruct (Z.eqb _ 0); [reflexivity|].
  destruct (Z.ltb _ 10); [destruct (fixable (lint q)); [|reflexivity]|];
    cbn [filter]; rewrite count_not_critical; try reflexivity;
    vm_compute; intuition discriminate.
Qed.

Lemma typeIssue_critical q :
  filter (fun i => includes i (str "TypeScript") || includes i (str "Build"))
         (typeIssue q) = typeIssue q.
Proof.
  unfold typeIssue.
  destruct (ts_clean _); [reflexivity|].
  destruct (Z.ltb 0 _); [|reflexivity].
  cbn [filter].
  rewrite (@includes_suffix (ofZ (ts_errors (typescript q)))
             (str " TypeScript errors") (str "TypeScript"))
    by (vm_compute; reflexivity).
  reflexivity.
Qed.

Lemma buildIssue_critical q :
  filter (fun i => includes i (str "TypeScript") || includes i (str "Build"))
         (buildIssue q) = buildIssue q.
Proof.
  unfold buildIssue. destruct (build_success _); reflexivity.
Qed.

Lemma issues_parts processes network quality git :
  issues (calculateReadiness processes network quality git)
  = typeIssue quality ++ buildIssue quality ++ lintIssue quality.
Proof.
  unfold calculateReadiness, typeIssue, buildIssue, lintIssue.
  cbn [issues].
  destruct (ts_clean (typescript quality));
    [|destruct (Z.ltb 0 (ts_errors (typescript quality)))];
    destruct (build_success (build quality));
    destruct (Z.eqb (lint_errors (lint quality)) 0);
    destruct (Z.ltb (lint_errors (lint quality)) 10);
    destruct (fixable (lint quality));
    reflexivity.
Qed.

Lemma critical_parts processes network quality git :
  critical (calculateReadiness processes network quality git)
  = typeIssue quality ++ buildIssue quality.
Proof.
  assert (Hc : critical (calculateReadiness processes network quality git)
               = filter (fun i => includes i (str "TypeScript")
                                  || includes i (str "Build"))
                   (issues (calculateReadiness processes network quality git)))
    by reflexivity.
  rewrite Hc, issues_parts, !filter_app.
  rewrite typeIssue_critical, buildIssue_critical, lintIssue_not_critical.
  now rewrite app_nil_r.
Qed.

(** X6. The critical issues are the type-check issue and the build issue,
    in this order, and nothing else: a lint issue is never critical,
    whatever the count it prints. *)
Theorem critical_is_type_and_build
    (processes : JsMap.t Process) (network : JsMap.t NetStatus)
    (quality : Quality) (git : Git) :
  let r := calculateReadiness processes network quality git in
  critical r = typeIssue quality ++ buildIssue quality /\
  issues r = critical r ++ lintIssue quality.
Proof.
  cbv zeta. rewrite critical_parts, issues_parts.
  split; [reflexivity|]. now rewrite app_assoc.
Qed.

(** X7. The score is a multiple of 10 between 0 and 100. *)
Theorem score_range
    (processes : JsMap.t Process) (network : JsMap.t NetStatus)
    (quality : Quality) (git : Git) :
  let s := score (calculateReadiness processes network quality git) in
  (0 <= s <= 100)%Z /\ (s mod 10 = 0)%Z.
Proof.
  cbv zeta. rewrite score_sum.
  unfold typePoints, buildPoints, lintPoints, devPoints.
  destruct (ts_clean (typescript quality)),
    (build_success (build quality)),
    (Z.eqb (lint_errors (lint quality)) 0),
    (Z.ltb (lint_errors (lint quality)) 10),
    (Nat.ltb 0 (List.length (JsMap.keys processes))
     && existsb healthy (JsMap.values network));
    split; try lia; reflexivity.
Qed.

(** X8. A readiness above not-ready needs a clean type-check; the level
    ready needs a successful build and fewer than ten lint errors as well,
    and then there is no critical issue. *)
Theorem ready_needs
    (processes : JsMap.t Process) (network : JsMap.t NetStatus)
    (quality : Quality) (git : Git) :
  let r := calculateReadiness processes network quality git in
  (level r <> not_ready -> ts_clean (typescript quality) = true) /\
  (level r = ready ->
     ts_clean (typescript quality) = true /\
     build_success (build quality) = true /\
     (lint_errors (lint quality) < 10)%Z /\
     critical r = []).
Proof.
  cbv zeta.
  rewrite critical_parts.
  unfold typeIssue, buildIssue.
  assert (Hlevel : level (calculateReadiness processes network quality git)
    = let s := score (calculateReadiness processes network quality git) in
      if Z.leb 90 s then ready else if Z.leb 70 s then partial else not_ready)
    by reflexivity.
  rewrite Hlevel. cbv zeta. rewrite score_sum.
  unfold typePoints, buildPoints, lintPoints, devPoints.
  destruct (ts_clean (typescript quality)),
    (build_success (build quality)),
    (Z.eqb (lint_errors (lint quality)) 0) eqn:E0,
    (Z.ltb_spec (lint_errors (lint quality)) 10),
    (Nat.ltb 0 (List.length (JsMap.keys processes))
     && existsb healthy (JsMap.values network));
    cbn; split; intros; try congruence; repeat split; try reflexivity;
    try lia; try congruence.
Qed.

End ScoringMore.

(* ================================================================== *)
(** * The probes *)
(* ================================================================== *)

Module ChecksLaws.
Import Facets Exn Checks ChecksSpec ClassifierSpec JSFacts JsMapFacts.
Import Scoring ScoringSpec IssueSpec ScoringLaws ScoringMore.
Import Differ DifferSpec DiffSpec DifferLaws DifferMore.

Lemma count_word_zero word s :
  word <> [] ->
  countMatches (wordAtCI word) 0 s = 0 <-> searchBy ciEq word s = false.
Proof.
  intros Hw. induction s as [|c s IH].
  - simpl. destruct word; [congruence|]. simpl. tauto.
  - cbn [countMatches searchBy]. unfold wordAtCI at 1.
    destruct (startsWithBy ciEq word (c :: s)); simpl.
    + split; discriminate.
    + exact IH.
Qed.

Lemma tsErrorAt_spec s :
  tsErrorAt s <> None <->
  exists d post, isDigit d = true /\ s = str "error TS" ++ d :: post.
Proof.
  unfold tsErrorAt.
  destruct (startsWithBy N.eqb (str "error TS") s) eqn:E.
  - apply startsWith_eqb in E as (r & ->).
    change (skipn 8 (str "error TS" ++ r)) with r.
    destruct r as [|d r]; simpl.
    + split; [congruence|]. intros (d & post & _ & H). discriminate.
    + destruct (isDigit d) eqn:Hd; simpl.
      * split; [|discriminate]. intros _. exists d, r. auto.
      * split; [congruence|]. intros (d' & post & Hd' & H).
        injection H as -> _. congruence.
  - split; [congruence|]. intros (d & post & _ & ->).
    assert (startsWithBy N.eqb (str "error TS")
              (str "error TS" ++ d :: post) = true)
      by (apply startsWith_eqb; eauto).
    congruence.
Qed.

Lemma count_ts_zero s :
  countMatches tsErrorAt 0 s = 0 <-> ~ hasTsError s.
Proof.
  unfold hasTsError. induction s as [|c s IH].
  - simpl. split; [|reflexivity]. intros _ (pre & d & post & _ & H).
    destruct pre; discriminate.
  - cbn [countMatches].
    destruct (tsErrorAt (c :: s)) as [n|] eqn:E.
    + split; [discriminate|]. intros H. exfalso. apply H.
      assert (Hne : tsErrorAt (c :: s) <> None) by congruence.
      apply tsErrorAt_spec in Hne as (d & post & Hd & Hs).
      exists [], d, post. auto.
    + rewrite IH. split.
      * intros H (pre & d & post & Hd & Hs). destruct pre as [|c' pre].
        -- assert (tsErrorAt (c :: s) <> None)
             by (apply tsErrorAt_spec; exists d, post; auto).
           congruence.
        -- injection Hs as -> ->. apply H. exists pre, d, post. auto.
      * intros H (pre & d & post & Hd & ->). apply H.
        exists (c :: pre), d, post. auto.
Qed.

(** X9. [checkTypeScript] reports a clean type-check exactly when the
    command ran and printed no "error TS" followed by a digit; a command
    that was rejected gives the count -1, and otherwise the count is not
    negative. *)
Theorem checkTypeScript_clean (run : option (jsstring * jsstring)) :
  let t := tsc (checkTypeScript run) in
  (ts_clean t = true <->
     exists stdout stderr,
       run = Some (stdout, stderr) /\ ~ hasTsError (stdout ++ stderr)) /\
  (ts_errors t = (-1)%Z <-> run = None) /\
  (run <> None -> (0 <= ts_errors t)%Z).
Proof.
  cbv zeta. destruct run as [[stdout stderr]|]; cbn [checkTypeScript tsc ts_clean ts_errors].
  - split; [|split].
    + rewrite Z.eqb_eq. split.
      * intros H. exists stdout, stderr. split; [reflexivity|].
        apply count_ts_zero. lia.
      * intros (o & e & [= <- <-] & H). apply count_ts_zero in H. lia.
    + split; [lia|discriminate].
    + intros _. lia.
  - split; [|split].
    + split; [discriminate|]. intros (o & e & H & _). discriminate.
    + split; reflexivity.
    + congruence.
Qed.

(** X10. [checkLint] never reports a negative count, and reports no error
    exactly when the command was rejected or its output does not contain
    the word "error" in any letter case. *)
Theorem checkLint_no_error (run : option (jsstring * jsstring)) :
  let l := linted (checkLint run) in
  (0 <= lint_errors l)%Z /\ (0 <= warnings l)%Z /\
  (lint_errors l = 0%Z <->
     match run with
     | Some (stdout, stderr) => ~ containsCI (str "error") (stdout ++ stderr)
     | None => True
     end).
Proof.
  cbv zeta. destruct run as [[stdout stderr]|];
    cbn [checkLint linted lint_errors warnings].
  - split; [lia|]. split; [lia|].
    assert (H : countMatches (wordAtCI (str "error")) 0 (stdout ++ stderr) = 0
                <-> ~ containsCI (str "error") (stdout ++ stderr)).
    { rewrite count_word_zero by discriminate.
      unfold containsCI. rewrite <- searchBy_spec.
      destruct (searchBy ciEq (str "error") (stdout ++ stderr));
        split; congruence. }
    rewrite <- H. lia.
  - split; [lia|]. split; [lia|]. tauto.
Qed.

Lemma lintPoints_max q : (lintPoints q <= 20)%Z.
Proof.
  unfold lintPoints.
  destruct (Z.eqb _ 0); [lia|]. destruct (Z.ltb _ 10); lia.
Qed.

(** X11. A lint command that was rejected (as when the linter exits with
    an error status) earns the 20 lint points and leaves no lint issue: no
    outcome of the command scores higher. *)
Theorem rejected_lint_scores_best
    (processes : JsMap.t Process) (network : JsMap.t NetStatus) (git : Git)
    (tscRun lintRun : option (jsstring * jsstring)) (b : Build) :
  let rejected :=
    calculateReadiness processes network
      (checkQuality tscRun None b) git in
  let other :=
    calculateReadiness processes network
      (checkQuality tscRun lintRun b) git in
  (score other <= score rejected)%Z /\
  lintIssue (checkQuality tscRun None b) = [] /\
  issues rejected = critical rejected.
Proof.
  cbv zeta. rewrite !score_sum, critical_parts, issues_parts.
  pose proof (lintPoints_max (checkQuality tscRun lintRun b)) as H.
  unfold typePoints, buildPoints, checkQuality in *.
  cbn [typescript lint build] in *.
  split; [|split].
  - change (lintPoints {| typescript := tsc (checkTypeScript tscRun);
                          lint := linted (checkLint None); build := b |})
      with 20%Z. lia.
  - reflexivity.
  - change (lintIssue {| typescript := tsc (checkTypeScript tscRun);
                         lint := linted (checkLint None); build := b |})
      with (@nil jsstring).
    now rewrite app_nil_r.
Qed.

(** X12. A type-check command that was rejected (as when the compiler
    exits with an error status) gives the level not-ready, whatever else
    holds, and no issue about the type-check: the critical issues are
    those of the build. *)
Theorem rejected_typecheck_not_ready
    (processes : JsMap.t Process) (network : JsMap.t NetStatus) (git : Git)
    (lintRun : option (jsstring * jsstring)) (b : Build) :
  let quality := checkQuality None lintRun b in
  let r := calculateReadiness processes network quality git in
  level r = not_ready /\ (score r <= 60)%Z /\
  critical r = buildIssue quality.
Proof.
  cbv zeta. rewrite critical_parts.
  assert (Hs : (score (calculateReadiness processes network
                         (checkQuality None lintRun b) git) <= 60)%Z).
  { rewrite score_sum.
    pose proof (lintPoints_max (checkQuality None lintRun b)).
    pose proof (devPoints_bounds processes network).
    unfold typePoints, buildPoints. cbn.
    destruct (build_success b); lia. }
  split; [|split; [exact Hs|reflexivity]].
  assert (Hlevel : level (calculateReadiness processes network
                            (checkQuality None lintRun b) git)
    = let s := score (calculateReadiness processes network
                        (checkQuality None lintRun b) git) in
      if Z.leb 90 s then ready else if Z.leb 70 s then partial else not_ready)
    by reflexivity.
  rewrite Hlevel. cbv zeta.
  destruct (Z.leb_spec 90 (score (calculateReadiness processes network
                                    (checkQuality None lintRun b) git)));
    [lia|].
  destruct (Z.leb_spec 70 (score (calculateReadiness processes network
                                    (checkQuality None lintRun b) git)));
    [lia|reflexivity].
Qed.

Lemma fold_set_fresh V (entries acc : list (jsstring * V)) :
  NoDup (map fst (acc ++ entries)) ->
  fold_left (fun o e => JsMap.set (fst e) (snd e) o) entries acc
  = acc ++ entries.
Proof.
  revert acc. induction entries as [|[k v] entries IH]; intros acc Hnd.
  - now rewrite app_nil_r.
  - cbn [fold_left fst snd].
    rewrite set_new.
    + rewrite IH; rewrite <- app_assoc; [reflexivity|exact Hnd].
    + apply get_None_keys. unfold JsMap.keys.
      rewrite map_app in Hnd. apply NoDup_remove_2 in Hnd.
      intros Hin. apply Hnd. apply in_or_app. now left.
Qed.

Lemma fst_check curl endpoint : fst (check curl endpoint) = fst (fst endpoint).
Proof. destruct endpoint as [[name port] framework], curl; reflexivity. Qed.

Lemma check_eta curl endpoint :
  check curl endpoint = (fst (fst endpoint), snd (check curl endpoint)).
Proof. destruct endpoint as [[name port] framework], curl; reflexivity. Qed.

(** The object [checkNetwork] builds has one entry for each row of the
    table, in the order of the table. *)
Lemma checkNetwork_entries curl :
  checkNetwork curl
  = map (fun endpoint => check (curl (fst (fst endpoint))) endpoint) endpoints.
Proof.
  unfold checkNetwork, fromEntries. rewrite fold_set_fresh; [reflexivity|].
  cbn [app JsMap.empty]. rewrite map_map.
  rewrite (map_ext _ (fun e => fst (fst e))) by (intros; apply fst_check).
  vm_compute. repeat constructor; simpl; intuition discriminate.
Qed.

Lemma checkNetwork_keys curl : JsMap.keys (checkNetwork curl) = endpointNames.
Proof.
  rewrite checkNetwork_entries. unfold JsMap.keys. rewrite map_map.
  rewrite (map_ext _ (fun e => fst (fst e))) by (intros; apply fst_check).
  reflexivity.
Qed.

Lemma healthy_check curl endpoint :
  healthy (snd (check curl endpoint)) = true <->
  exists stdout, curl = Some stdout /\
    (trim stdout = str "200" \/ trim stdout = str "404").
Proof.
  destruct endpoint as [[name port] framework], curl as [stdout|];
    cbn [check snd healthy].
  - unfold JsMap.arrayIncludes. cbn [existsb].
    rewrite orb_false_r, orb_true_iff, !eqb_eq. split.
    + intros [H|H]; exists stdout; auto.
    + intros (o & [= <-] & [H|H]); auto.
  - split; [discriminate|]. intros (o & H & _). discriminate.
Qed.

(** X13. Whatever the probes return, [checkNetwork] reports the same seven
    endpoints in the same order, and an endpoint is healthy exactly when
    its probe ran and printed 200 or 404 (white space apart); a probe that
    was rejected is reported unhealthy. *)
Theorem checkNetwork_endpoints (curl : jsstring -> option jsstring) :
  JsMap.keys (checkNetwork curl) = endpointNames /\
  forall name, In name endpointNames ->
    exists s, JsMap.get name (checkNetwork curl) = Some s /\
      (healthy s = true <->
         exists stdout, curl name = Some stdout /\
           (trim stdout = str "200" \/ trim stdout = str "404")).
Proof.
  split; [apply checkNetwork_keys|].
  intros name Hin. rewrite checkNetwork_entries.
  rewrite (map_ext _ (fun e => (fst (fst e),
                                snd (check (curl (fst (fst e))) e))))
    by (intros e; apply check_eta).
  unfold endpointNames in Hin. cbn [map endpoints fst snd].
  repeat (destruct Hin as [<-|Hin];
    [eexists; split; [reflexivity|apply healthy_check]|]).
  destruct Hin.
Qed.

(** X14. Two snapshots whose network maps both come from [checkNetwork]
    never make [detectStateChanges] throw, whatever the probes found: the
    endpoints are the same seven on both sides. *)
Theorem detectStateChanges_on_probed (Structure : Type)
    (before after : Snapshot Structure)
    (curl1 curl2 : jsstring -> option jsstring) :
  network before = Some (checkNetwork curl1) ->
  network after = Some (checkNetwork curl2) ->
  detectStateChanges before after = Ok (expected before after).
Proof.
  intros Hb Ha. apply detectStateChanges_covered.
  unfold covered. rewrite Hb, Ha. intros k Hk.
  apply keys_get. rewrite checkNetwork_keys in *. exact Hk.
Qed.

Lemma detectStateChanges_on_probed_witness :
  detectStateChanges (probedSnapshot 1000 only_vite)
                     (probedSnapshot 6000 nothing_answers)
  = Ok (expected (probedSnapshot 1000 only_vite)
                 (probedSnapshot 6000 nothing_answers))
  /\ expected (probedSnapshot 1000 only_vite)
              (probedSnapshot 6000 nothing_answers)
     = [network_down (str "vite") (Some 5173%Z)].
Proof.
  split; [|vm_compute; reflexivity].
  apply (@detectStateChanges_on_probed unit
           (probedSnapshot 1000 only_vite)
           (probedSnapshot 6000 nothing_answers) only_vite nothing_answers);
    reflexivity.
Defined.

(** C7, as the code has it. An endpoint of the previous network map
    that is absent from the current one is not skipped:
    [detectStateChanges] reads its entry in the current map and throws a
    [TypeError], unless the endpoint bears the name of a property every
    object inherits. Two snapshots whose network maps come from
    [checkNetwork] have no such endpoint, whatever the probes found, and
    [detectStateChanges] returns a list on them. *)
Theorem detectStateChanges_absent_endpoint (Structure : Type)
    (before after : Snapshot Structure) :
  (forall (beforeNetwork afterNetwork : JsMap.t NetStatus)
          (endpoint : jsstring),
     network before = Some beforeNetwork ->
     network after = Some afterNetwork ->
     In endpoint (JsMap.keys beforeNetwork) ->
     JsMap.get endpoint afterNetwork = None ->
     ~ In endpoint JsMap.objectPrototypeKeys ->
     detectStateChanges before after = Err TypeError) /\
  (forall curl1 curl2 : jsstring -> option jsstring,
     network before = Some (checkNetwork curl1) ->
     network after = Some (checkNetwork curl2) ->
     (forall endpoint,
        In endpoint (JsMap.keys (checkNetwork curl1)) ->
        JsMap.get endpoint (checkNetwork curl2) <> None) /\
     exists changes, detectStateChanges before after = Ok changes).
Proof.
  split.
  - intros bn an endpoint Hb Ha Hin Hget Hname.
    apply (@detectStateChanges_unread _ before after bn an endpoint);
      try assumption.
    apply read_undefined. now split.
  - intros curl1 curl2 Hb Ha.
    assert (Hc : forall endpoint,
               In endpoint (JsMap.keys (checkNetwork curl1)) ->
               JsMap.get endpoint (checkNetwork curl2) <> None).
    { intros k Hk. apply keys_get. rewrite checkNetwork_keys in *.
      exact Hk. }
    split; [exact Hc|].
    exists (expected before after). apply detectStateChanges_covered.
    unfold covered. rewrite Hb, Ha. exact Hc.
Qed.

Lemma detectStateChanges_absent_endpoint_witness :
  detectStateChanges both_running endpoint_missing = Err TypeError /\
  exists changes,
    detectStateChanges (probedSnapshot 1000 only_vite)
                       (probedSnapshot 6000 nothing_answers)
    = Ok changes.
Proof.
  split.
  - apply (proj1 (@detectStateChanges_absent_endpoint unit both_running
                    endpoint_missing)
             [(str "vite", up 5173 "vite"); (str "convex", down 3210 "convex")]
             [(str "vite", up 5173 "vite")] (str "convex")).
    + reflexivity.
    + reflexivity.
    + right. left. reflexivity.
    + reflexivity.
    + vm_compute. intuition discriminate.
  - apply (proj2 (@detectStateChanges_absent_endpoint unit
                    (probedSnapshot 1000 only_vite)
                    (probedSnapshot 6000 nothing_answers))
             only_vite nothing_answers); reflexivity.
Defined.

Lemma dropWhile_nil f s : dropWhile f s = [] <-> forallb f s = true.
Proof.
  induction s as [|c s IH]; simpl; [tauto|].
  destruct (f c); simpl; [exact IH|]. split; discriminate.
Qed.

Lemma dropWhile_head f s c r : dropWhile f s = c :: r -> f c = false.
Proof.
  induction s as [|a s IH]; simpl; [discriminate|].
  destruct (f a) eqn:E; [exact IH|]. intros [= -> _]. exact E.
Qed.

Lemma forallb_rev (f : N -> bool) s : forallb f (rev s) = forallb f s.
Proof.
  induction s as [|c s IH]; [reflexivity|].
  simpl. rewrite forallb_app, IH. simpl. rewrite andb_true_r.
  apply andb_comm.
Qed.

(** Trimming leaves nothing exactly when there is only white space. *)
Lemma trim_nil s : trim s = [] <-> forallb isSpace s = true.
Proof.
  unfold trim. split.
  - intros H. apply (f_equal (@rev N)) in H. rewrite rev_involutive in H.
    simpl in H. apply dropWhile_nil in H. rewrite forallb_rev in H.
    destruct (dropWhile isSpace s) as [|c r] eqn:E.
    + now apply dropWhile_nil.
    + apply dropWhile_head in E. simpl in H. rewrite E in H. discriminate.
  - intros H. apply dropWhile_nil in H. now rewrite H.
Qed.

(** What is left after trimming starts with a code unit that is not white
    space. *)
Lemma trim_head s c r : trim s = c :: r -> isSpace c = false.
Proof.
  unfold trim. intros H.
  destruct (dropWhile isSpace s) as [|a t] eqn:E; [discriminate|].
  pose proof (dropWhile_head _ _ E) as Ha.
  assert (Hlast : forall l, exists l', dropWhile isSpace (l ++ [a]) = l' ++ [a]).
  { induction l as [|x l (l' & IH)]; simpl.
    - rewrite Ha. now exists [].
    - destruct (isSpace x); [now exists l'|].
      now exists (x :: l). }
  cbn [rev] in H. destruct (Hlast (rev t)) as (l' & Hl).
  rewrite Hl, rev_app_distr in H. simpl in H. congruence.
Qed.

Lemma splitOn_first sep cur s :
  exists rest,
    splitOn sep cur s
    = (rev cur ++ takeWhile (fun c => negb (N.eqb c sep)) s) :: rest.
Proof.
  revert cur. induction s as [|c s IH]; intros cur; simpl.
  - exists []. now rewrite app_nil_r.
  - destruct (N.eqb c sep); simpl.
    + eexists. now rewrite app_nil_r.
    + destruct (IH (c :: cur)) as (rest & ->). exists rest.
      simpl. now rewrite <- app_assoc.
Qed.

(** A text that starts with a code unit that is not white space has a
    first line that is not blank. *)
Lemma nonblank_line c r :
  isSpace c = false ->
  0 < List.length
        (filter (fun line => Nat.ltb 0 (List.length (trim line)))
                (splitOn 10 [] (c :: r))).
Proof.
  intros Hc.
  destruct (splitOn_first 10 [] (c :: r)) as (rest & ->).
  assert (Hnl : N.eqb c 10 = false).
  { destruct (N.eqb_spec c 10) as [->|]; [discriminate|reflexivity]. }
  cbn [rev app takeWhile]. rewrite Hnl. cbn [negb filter].
  set (line := c :: takeWhile (fun c => negb (N.eqb c 10)) r).
  destruct (trim line) as [|x t] eqn:Et.
  - apply trim_nil in Et. unfold line in Et. simpl in Et.
    rewrite Hc in Et. discriminate.
  - simpl. lia.
Qed.

(** X15. [getGitStatus] reports a clean tree exactly when
    [git status --porcelain] was rejected or printed only white space; so a
    directory that is no repository counts as clean, on branch
    "unknown". *)
Theorem getGitStatus_clean (branchRun statusRun : option jsstring) :
  let g := getGitStatus branchRun statusRun in
  (git_clean g = true <->
     match statusRun with
     | Some stdout => forallb isSpace stdout = true
     | None => True
     end) /\
  (git_clean g = true <-> changedFiles g = 0%Z) /\
  (0 <= changedFiles g)%Z /\
  (branchRun = None -> branch g = str "unknown").
Proof.
  cbv zeta. unfold getGitStatus. cbn [git_clean changedFiles branch].
  split; [|split; [apply Z.eqb_eq|split]].
  - rewrite Z.eqb_eq. destruct statusRun as [stdout|]; [|tauto].
    rewrite <- trim_nil.
    destruct (trim stdout) as [|c r] eqn:E; [tauto|].
    pose proof (@nonblank_line c r (@trim_head stdout c r E)) as Hpos.
    split; [lia|discriminate].
  - destruct (match statusRun with Some stdout => trim stdout | None => [] end);
      lia.
  - now intros ->.
Qed.

Lemma takeWhile_all (f : N -> bool) s : Forall (fun c => f c = true) (takeWhile f s).
Proof.
  induction s as [|c s IH]; simpl; [constructor|].
  destruct (f c) eqn:E; constructor; assumption.
Qed.

Lemma takeWhile_dropWhile (f : N -> bool) s :
  s = takeWhile f s ++ dropWhile f s.
Proof.
  induction s as [|c s IH]; simpl; [reflexivity|].
  destruct (f c); simpl; [now rewrite <- IH|reflexivity].
Qed.

Lemma includes_infix pre d post : includes (pre ++ d ++ post) d = true.
Proof.
  unfold includes. apply searchBy_spec. exists pre, d, post.
  split; [reflexivity|now apply reads_eqb].
Qed.

Lemma deploymentMatch_name s d :
  deploymentMatch s = Some d ->
  d <> [] /\ Forall (fun c => isSpace c = false) d /\ includes s d = true.
Proof.
  induction s as [|a s IH]; cbn [deploymentMatch].
  - destruct (deploymentAt []) eqn:E; [|discriminate].
    vm_compute in E. discriminate.
  - destruct (deploymentAt (a :: s)) as [d'|] eqn:E.
    + intros [= <-]. unfold deploymentAt in E.
      destruct (startsWithBy ciEq (str "deployment:") (a :: s)); [|discriminate].
      set (rest := skipn 11 (a :: s)) in *.
      pose proof (takeWhile_all (fun c => negb (isSpace c))
                    (dropWhile isSpace rest)) as Hall.
      pose proof (takeWhile_dropWhile (fun c => negb (isSpace c))
                    (dropWhile isSpace rest)) as Hsplit.
      destruct (takeWhile (fun c => negb (isSpace c)) (dropWhile isSpace rest))
        as [|x t] eqn:Et; [discriminate|].
      injection E as <-. split; [discriminate|]. split.
      * eapply Forall_impl; [|exact Hall]. intros c Hc.
        now apply negb_true_iff.
      * rewrite <- (firstn_skipn 11 (a :: s)). fold rest.
        rewrite (takeWhile_dropWhile isSpace rest), Hsplit.
        rewrite app_assoc. apply includes_infix.
    + intros H. destruct (IH H) as (Hne & Hall & Hinc).
      split; [exact Hne|]. split; [exact Hall|].
      change (a :: s) with ([a] ++ s).
      unfold includes in *. apply searchBy_spec in Hinc as (pre & w & post & -> & R).
      apply searchBy_spec. exists ([a] ++ pre), w, post.
      split; [now rewrite <- app_assoc|assumption].
Qed.

(** X16. The deployment name [extractConvexDeployment] returns is never
    empty and has no white space in it: it is "unknown" or a piece of the
    status text. *)
Theorem extractConvexDeployment_name (statusOutput : jsstring) :
  let name := extractConvexDeployment statusOutput in
  name <> [] /\ Forall (fun c => isSpace c = false) name /\
  (name = str "unknown" \/ includes statusOutput name = true).
Proof.
  cbv zeta. unfold extractConvexDeployment.
  destruct (deploymentMatch statusOutput) as [d|] eqn:E.
  - destruct (deploymentMatch_name _ E) as (Hne & Hall & Hinc).
    split; [exact Hne|]. split; [exact Hall|]. now right.
  - split; [discriminate|]. split; [|now left].
    vm_compute. repeat constructor.
Qed.

Example extractConvexDeployment_found :
  extractConvexDeployment (str "Deployment:   happy-otter-123 (dev)")
  = str "happy-otter-123".
Proof. vm_compute. reflexivity. Qed.

End ChecksLaws.

(* ================================================================== *)
(** * More on the process probe *)
(* ================================================================== *)

Module ProbesMore.
Import Facets Probes PortSpec JSFacts JsMapFacts ChecksLaws.

Lemma digit_not_sep d : isDigit d = true -> isPortSep d = false.
Proof.
  unfold isDigit. rewrite andb_true_iff, !N.leb_le. intros [Hlo Hhi].
  unfold isPortSep, isSpace. cbn [existsb].
  repeat match goal with
  | |- context [N.eqb d ?k] => destruct (N.eqb_spec d k); [lia|]
  end.
  destruct (N.leb_spec 8192 d); [lia|]. reflexivity.
Qed.

Lemma takeWhile_stop (f : N -> bool) a x r :
  forallb f a = true -> f x = false ->
  takeWhile f (a ++ x :: r) = a /\ dropWhile f (a ++ x :: r) = x :: r.
Proof.
  intros Ha Hx. induction a as [|c a IH]; simpl in *.
  - now rewrite Hx.
  - apply andb_true_iff in Ha as [Hc Ha]. rewrite Hc.
    destruct (IH Ha) as [-> ->]. auto.
Qed.

Lemma forallb_Forall (f : N -> bool) s :
  Forall (fun c => f c = true) s -> forallb f s = true.
Proof. induction 1; simpl; [reflexivity|]. now rewrite H, IHForall. Qed.

Lemma portAfter_spec kw s digits :
  portAfter kw s = Some digits ->
  exists seps rest,
    seps <> [] /\ forallb isPortSep seps = true /\
    digits <> [] /\ forallb isDigit digits = true /\
    s = kw ++ seps ++ digits ++ rest.
Proof.
  unfold portAfter.
  destruct (startsWithBy N.eqb kw s) eqn:E; [|discriminate].
  apply startsWith_eqb in E as (r & ->). rewrite skipn_prefix.
  pose proof (takeWhile_dropWhile isPortSep r) as Hr.
  pose proof (takeWhile_all isPortSep r) as Hseps.
  destruct (takeWhile isPortSep r) as [|x seps] eqn:Es; [discriminate|].
  pose proof (takeWhile_dropWhile isDigit (dropWhile isPortSep r)) as Hd.
  pose proof (takeWhile_all isDigit (dropWhile isPortSep r)) as Hdigits.
  destruct (takeWhile isDigit (dropWhile isPortSep r)) as [|d ds] eqn:Ed;
    [discriminate|].
  intros [= <-].
  exists (x :: seps), (dropWhile isDigit (dropWhile isPortSep r)).
  split; [discriminate|]. split; [now apply forallb_Forall|].
  split; [discriminate|]. split; [now apply forallb_Forall|].
  now rewrite <- Hd, <- Hr.
Qed.

Lemma portAfter_found kw seps d rest :
  seps <> [] -> forallb isPortSep seps = true -> isDigit d = true ->
  portAfter kw (kw ++ seps ++ d :: rest) <> None.
Proof.
  intros Hne Hseps Hd. unfold portAfter.
  assert (E : startsWithBy N.eqb kw (kw ++ seps ++ d :: rest) = true)
    by (apply startsWith_eqb; eauto).
  rewrite E, skipn_prefix.
  destruct (@takeWhile_stop isPortSep seps d rest Hseps (digit_not_sep _ Hd))
    as [-> ->].
  destruct seps; [congruence|]. cbn [takeWhile]. rewrite Hd. discriminate.
Qed.

Lemma portAt_spec s digits :
  portAt s = Some digits ->
  exists kw seps rest,
    In kw [str "--port"; str "port"; str "PORT"] /\
    seps <> [] /\ forallb isPortSep seps = true /\
    digits <> [] /\ forallb isDigit digits = true /\
    s = kw ++ seps ++ digits ++ rest.
Proof.
  unfold portAt.
  destruct (portAfter (str "--port") s) eqn:E1.
  - intros [= <-]. apply portAfter_spec in E1 as (seps & rest & H).
    exists (str "--port"), seps, rest. split; [now left|exact H].
  - destruct (portAfter (str "port") s) eqn:E2.
    + intros [= <-]. apply portAfter_spec in E2 as (seps & rest & H).
      exists (str "port"), seps, rest. split; [right; now left|exact H].
    + intros E3. apply portAfter_spec in E3 as (seps & rest & H).
      exists (str "PORT"), seps, rest.
      split; [right; right; now left|exact H].
Qed.

Lemma portAt_found kw seps d rest :
  In kw [str "--port"; str "port"; str "PORT"] ->
  seps <> [] -> forallb isPortSep seps = true -> isDigit d = true ->
  portAt (kw ++ seps ++ d :: rest) <> None.
Proof.
  intros Hkw Hne Hseps Hd. unfold portAt.
  pose proof (@portAfter_found kw seps d rest Hne Hseps Hd) as H.
  destruct Hkw as [<-|[<-|[<-|[]]]].
  - destruct (portAfter (str "--port") _); [discriminate|congruence].
  - destruct (portAfter (str "--port") _); [discriminate|].
    destruct (portAfter (str "port") _); [discriminate|congruence].
  - destruct (portAfter (str "--port") _); [discriminate|].
    destruct (portAfter (str "port") _); [discriminate|exact H].
Qed.

Lemma portMatch_spec s digits :
  portMatch s = Some digits ->
  digits <> [] /\ forallb isDigit digits = true /\
  includes s digits = true /\ hasPortArg s.
Proof.
  induction s as [|a s IH]; cbn [portMatch].
  - destruct (portAt []) eqn:E; [|discriminate]. vm_compute in E.
    discriminate E.
  - destruct (portAt (a :: s)) as [d'|] eqn:E.
    + intros [= <-].
      apply portAt_spec in E
        as (kw & seps & rest & Hkw & Hne & Hseps & Hdne & Hd & Hs).
      split; [exact Hdne|]. split; [exact Hd|]. split.
      * rewrite Hs, (app_assoc kw seps). apply includes_infix.
      * destruct d' as [|d ds]; [congruence|].
        exists [], kw, seps, d, (ds ++ rest). cbn [forallb] in Hd.
        apply andb_true_iff in Hd as [Hd0 _].
        repeat split; try assumption.
    + intros H. destruct (IH H) as (Hne & Hd & Hinc & Harg).
      split; [exact Hne|]. split; [exact Hd|]. split.
      * unfold includes in *.
        apply searchBy_spec in Hinc as (pre & w & post & -> & R).
        apply searchBy_spec. exists (a :: pre), w, post. auto.
      * destruct Harg as (pre & kw & seps & d & rest & H1 & H2 & H3 & H4 & ->).
        exists (a :: pre), kw, seps, d, rest. auto.
Qed.

Lemma portMatch_head s d : portAt s = Some d -> portMatch s = Some d.
Proof. intros H. destruct s; cbn [portMatch]; now rewrite H. Qed.

Lemma portMatch_found s : hasPortArg s -> portMatch s <> None.
Proof.
  intros (pre & kw & seps & d & rest & Hkw & Hne & Hseps & Hd & ->).
  induction pre as [|a pre IH].
  - pose proof (@portAt_found kw seps d rest Hkw Hne Hseps Hd) as H.
    cbn [app]. destruct (portAt (kw ++ seps ++ d :: rest)) as [x|] eqn:E;
      [|congruence].
    rewrite (portMatch_head _ E). discriminate.
  - cbn [app portMatch].
    destruct (portAt (a :: pre ++ kw ++ seps ++ d :: rest));
      [discriminate|exact IH].
Qed.

(** X17. [extractPort] never returns the empty string (so the fallbacks
    written after [||] in [scanProcesses] are never used). When the
    command has a port argument, the result is a string of digits taken
    from the command; when it has none, the result is one of the six
    defaults. *)
Theorem extractPort_result (command : jsstring) :
  let p := extractPort command in
  p <> [] /\
  (forall d, orStr p d = p) /\
  (hasPortArg command ->
     forallb isDigit p = true /\ includes command p = true) /\
  (~ hasPortArg command -> In p defaultPorts).
Proof.
  cbv zeta. unfold extractPort.
  destruct (portMatch command) as [digits|] eqn:E.
  - destruct (portMatch_spec _ E) as (Hne & Hd & Hinc & Harg).
    split; [exact Hne|]. split; [|split].
    + intros d. destruct digits; [congruence|reflexivity].
    + auto.
    + intros H. contradiction.
  - assert (Hdef : In
      (if includes command (str "astro") then str "4321"
       else if includes command (str "vite") then str "5173"
       else if includes command (str "next") then str "3000"
       else if includes command (str "react")
               && negb (includes command (str "next")) then str "3000"
       else if includes command (str "convex") then str "3210"
       else if includes command (str "nuxt") then str "3000"
       else if includes command (str "svelte") then str "5173"
       else if includes command (str "vue") then str "8080"
       else str "unknown") defaultPorts).
    { unfold defaultPorts.
      repeat match goal with
      | |- context [if ?b then _ else _] => destruct b
      end; simpl; tauto. }
    split; [|split; [|split]].
    + intros Hnil. rewrite Hnil in Hdef. unfold defaultPorts in Hdef.
      simpl in Hdef. intuition discriminate.
    + intros d.
      destruct (if includes command (str "astro") then _ else _);
        [|reflexivity].
      unfold defaultPorts in Hdef. simpl in Hdef. intuition discriminate.
    + intros H. apply portMatch_found in H. congruence.
    + intros _. exact Hdef.
Qed.

(** One line of [ps] output leaves the object as it is or writes one of
    the six roles, with the second field of the line as pid. *)
Lemma scanLine_cases processes line :
  scanLine processes line = processes \/
  exists role p,
    In role roleNames /\ proc_status p = str "running" /\
    pid p = nth_error (splitSpaces [] false line) 1 /\
    scanLine processes line = JsMap.set role p processes.
Proof.
  unfold scanLine. cbv zeta.
  set (command := join (str " ") (skipn 10 (splitSpaces [] false line))).
  destruct (includes command (str "turbo") && includes command (str "dev")).
  { right.
    refine (ex_intro _ _ (ex_intro _ _ (conj _ (conj _ (conj _ eq_refl)))));
      [simpl; tauto|reflexivity|reflexivity]. }
  destruct (includes command (str "astro") && includes command (str "dev")).
  { right.
    refine (ex_intro _ _ (ex_intro _ _ (conj _ (conj _ (conj _ eq_refl)))));
      [simpl; tauto|reflexivity|reflexivity]. }
  destruct (includes command (str "vite")
            || includes command (str "npm") && includes command (str "dev")
               && negb (includes command (str "next"))).
  { right.
    refine (ex_intro _ _ (ex_intro _ _ (conj _ (conj _ (conj _ eq_refl)))));
      [simpl; tauto|reflexivity|reflexivity]. }
  destruct (includes command (str "next")
            || includes command (str "npm") && includes command (str "dev")
               && includes command (str "next")).
  { right.
    refine (ex_intro _ _ (ex_intro _ _ (conj _ (conj _ (conj _ eq_refl)))));
      [simpl; tauto|reflexivity|reflexivity]. }
  destruct (includes command (str "convex")).
  { right.
    refine (ex_intro _ _ (ex_intro _ _ (conj _ (conj _ (conj _ eq_refl)))));
      [simpl; tauto|reflexivity|reflexivity]. }
  destruct (includes command (str "dev")
            && (includes command (str "npm") || includes command (str "yarn")
                || includes command (str "pnpm"))).
  { right.
    refine (ex_intro _ _ (ex_intro _ _ (conj _ (conj _ (conj _ eq_refl)))));
      [simpl; tauto|reflexivity|reflexivity]. }
  now left.
Qed.

Lemma set_In_inv V (m : JsMap.t V) k v k' v' :
  In (k', v') (JsMap.set k v m) -> v' = v \/ In (k', v') m.
Proof.
  induction m as [|[k0 v0] m IH]; simpl.
  - intros [[= <- <-]|[]]. now left.
  - destruct (eqb k0 k); simpl.
    + intros [[= <- <-]|H]; auto.
    + intros [H|H]; auto. destruct (IH H); auto.
Qed.

Lemma keys_set_incl V (m : JsMap.t V) k v :
  incl (JsMap.keys (JsMap.set k v m)) (k :: JsMap.keys m).
Proof.
  rewrite keys_set. destruct (JsMap.get k m).
  - intros x Hx. now right.
  - intros x Hx. apply in_app_or in Hx as [Hx|[<-|[]]]; [now right|now left].
Qed.

Lemma tidy_scanLine m line : tidy m -> tidy (scanLine m line).
Proof.
  intros (Hnd & Hincl & Hrun).
  destruct (scanLine_cases m line) as [->|(role & p & Hrole & Hp & _ & ->)];
    [repeat split; assumption|].
  split; [now apply NoDup_set|]. split.
  - intros x Hx. apply keys_set_incl in Hx as [<-|Hx]; auto.
  - intros k' p' Hin. apply set_In_inv in Hin as [->|Hin]; eauto.
Qed.

Lemma tidy_fold lines m : tidy m -> tidy (fold_left scanLine lines m).
Proof.
  revert m. induction lines as [|line lines IH]; intros m Hm; [exact Hm|].
  simpl. apply IH. now apply tidy_scanLine.
Qed.

(** X18. Whatever [ps] printed, [scanProcesses] reports each role at most
    once and only the six roles it knows, so at most six processes, each
    with status "running": of several processes of one role, one is
    reported. *)
Theorem scanProcesses_roles (ps : option jsstring) :
  let processes := scanProcesses ps in
  NoDup (JsMap.keys processes) /\
  incl (JsMap.keys processes) roleNames /\
  List.length (JsMap.keys processes) <= 6 /\
  forall k p, In (k, p) processes -> proc_status p = str "running".
Proof.
  cbv zeta.
  assert (H : tidy (scanProcesses ps)).
  { unfold scanProcesses. destruct ps as [stdout|].
    - apply tidy_fold. repeat split; [constructor|intros x []|intros k p []].
    - repeat split; [constructor|intros x []|intros k p []]. }
  destruct H as (Hnd & Hincl & Hrun).
  split; [exact Hnd|]. split; [exact Hincl|]. split; [|exact Hrun].
  apply (NoDup_incl_length Hnd Hincl).
Qed.

(** X19. A command with both "npm" and "dev" in it is never filed under
    the generic role "dev": it is reported as turbo, astro, vite or next,
    and as vite when none of these names occurs in it. *)
Theorem npm_dev_is_not_generic (processes : JsMap.t Process) (line : jsstring) :
  includes (commandOf line) (str "npm") = true ->
  includes (commandOf line) (str "dev") = true ->
  exists role p,
    In role [str "turbo"; str "astro"; str "vite"; str "next"] /\
    scanLine processes line = JsMap.set role p processes /\
    (includes (commandOf line) (str "turbo") = false ->
     includes (commandOf line) (str "astro") = false ->
     includes (commandOf line) (str "next") = false ->
     role = str "vite").
Proof.
  unfold commandOf. intros Hnpm Hdev. unfold scanLine. cbv zeta.
  set (command := join (str " ") (skipn 10 (splitSpaces [] false line))) in *.
  rewrite Hnpm, Hdev. rewrite !andb_true_r. cbn [andb].
  destruct (includes command (str "turbo")) eqn:Et.
  { refine (ex_intro _ _ (ex_intro _ _ (conj _ (conj eq_refl _))));
      [simpl; tauto|discriminate]. }
  destruct (includes command (str "astro")) eqn:Ea.
  { refine (ex_intro _ _ (ex_intro _ _ (conj _ (conj eq_refl _))));
      [simpl; tauto|discriminate]. }
  destruct (includes command (str "next")) eqn:En.
  - destruct (includes command (str "vite")); cbn [orb negb].
    + refine (ex_intro _ _ (ex_intro _ _ (conj _ (conj eq_refl _))));
      [simpl; tauto|discriminate].
    + refine (ex_intro _ _ (ex_intro _ _ (conj _ (conj eq_refl _))));
      [simpl; tauto|discriminate].
  - rewrite orb_true_r.
    refine (ex_intro _ _ (ex_intro _ _ (conj _ (conj eq_refl _))));
      [simpl; tauto|reflexivity].
Qed.

Lemma npm_dev_is_not_generic_witness :
  exists role p,
    In role [str "turbo"; str "astro"; str "vite"; str "next"] /\
    scanLine [] npm_run_dev = JsMap.set role p [] /\
    (includes (commandOf npm_run_dev) (str "turbo") = false ->
     includes (commandOf npm_run_dev) (str "astro") = false ->
     includes (commandOf npm_run_dev) (str "next") = false ->
     role = str "vite").
Proof.
  apply (@npm_dev_is_not_generic [] npm_run_dev); vm_compute; reflexivity.
Defined.

Example scanProcesses_npm_run_dev :
  JsMap.keys (scanProcesses (Some npm_run_dev)) = [str "vite"].
Proof. vm_compute. reflexivity. Qed.

End ProbesMore.

(* ================================================================== *)
(** * More on the cache *)
(* ================================================================== *)

Module CacheMore.
Import Cache CacheSpec CacheMoreSpec JSFacts JsMapFacts CacheLaws.

Section CacheMore.
Variable V : Type.
Implicit Types (c : Cache.t V) (key k : jsstring).

Lemma get_app_new c key key' (e : Entry V) :
  key' <> key -> JsMap.get key' (c ++ [(key, e)]) = JsMap.get key' c.
Proof.
  intros Hne. induction c as [|[k0 e0] c IH]; simpl.
  - assert (E : eqb key key' = false) by (apply eqb_neq; congruence).
    now rewrite E.
  - now rewrite IH.
Qed.


Lemma getCache_other c key key' now :
  key' <> key ->
  JsMap.get key' (snd (getCache c key now)) = JsMap.get key' c.
Proof.
  intros Hne. unfold getCache. destruct (JsMap.get key c) as [entry|];
    [|reflexivity].
  destruct (Z.ltb _ _); [reflexivity|]. simpl. now apply get_delete_other.
Qed.

Lemma behind_keys key (c1 c2 : Cache.t V) :
  JsMap.keys c1 = JsMap.keys c2 -> behind key c1 = behind key c2.
Proof.
  revert c2. induction c1 as [|[k1 e1] c1 IH]; intros [|[k2 e2] c2];
    simpl; try discriminate; [reflexivity|].
  intros [= <- H]. destruct (eqb k1 key); [|now apply IH].
  apply (f_equal (@List.length _)) in H. unfold JsMap.keys in H.
  now rewrite !length_map in H.
Qed.

Lemma behind_app c key (x : jsstring * Entry V) :
  JsMap.get key c <> None -> behind key (c ++ [x]) = S (behind key c).
Proof.
  induction c as [|[k0 e0] c IH]; simpl; [congruence|].
  destruct (eqb k0 key); [|exact IH].
  intros _. rewrite length_app. simpl. lia.
Qed.

Lemma behind_last c key (e : Entry V) :
  JsMap.get key c = None -> behind key (c ++ [(key, e)]) = 0.
Proof.
  induction c as [|[k0 e0] c IH]; simpl.
  - now rewrite eqb_refl.
  - destruct (eqb k0 key); [discriminate|exact IH].
Qed.

Lemma behind_delete c key k :
  k <> key -> behind key (JsMap.delete k c) <= behind key c.
Proof.
  intros Hne. induction c as [|[k0 e0] c IH]; simpl; [lia|].
  destruct (eqb k0 k) eqn:Ek; simpl.
  - apply eqb_eq in Ek. subst k0.
    assert (E : eqb k key = false) by now apply eqb_neq.
    rewrite E.
    clear IH. induction c as [|[k1 e1] c IH]; simpl; [lia|].
    destruct (eqb k1 key); simpl; lia.
  - destruct (eqb k0 key); [|exact IH].
    pose proof (size_delete_le c k). unfold JsMap.size in *. lia.
Qed.

(** One more write of any key keeps the entry, with one more entry after
    it at most, as long as fewer than nine come after it. *)
Lemma holdsWithin_set c key w n k data timeout now :
  k <> key -> n <= 8 -> holdsWithin key w n c ->
  holdsWithin key w (S n) (setCache c k data timeout now).
Proof.
  intros Hne Hn (Hwf & Hget & Hb).
  split; [now apply wf_setCache|].
  destruct Hwf as [Hnd Hsz]. rewrite setCache_cases by assumption.
  destruct (JsMap.get k c) eqn:E.
  - split.
    + rewrite get_set_other by congruence. exact Hget.
    + rewrite (@behind_keys key _ c); [lia|].
      apply set_old_keys. congruence.
  - destruct (Nat.ltb_spec (JsMap.size c) 10) as [Hlt|Hge].
    + split; [rewrite get_app_new by congruence; exact Hget|].
      rewrite behind_app by congruence. lia.
    + destruct c as [|[k0 e0] rest]; [discriminate|].
      cbn [tl]. simpl in Hget, Hb.
      destruct (eqb k0 key) eqn:E0.
      * exfalso. unfold JsMap.size in *. simpl in *. lia.
      * split; [rewrite get_app_new by congruence; exact Hget|].
        rewrite behind_app by congruence. lia.
Qed.

Lemma holdsWithin_get c key w n k now :
  k <> key -> holdsWithin key w n c ->
  holdsWithin key w n (snd (getCache c k now)).
Proof.
  intros Hne (Hwf & Hget & Hb).
  split; [now apply wf_getCache|]. split.
  - rewrite getCache_other by congruence. exact Hget.
  - unfold getCache. destruct (JsMap.get k c) as [entry|]; [|exact Hb].
    destruct (Z.ltb _ _); [exact Hb|]. simpl.
    pose proof (@behind_delete c key k Hne). lia.
Qed.

Lemma holdsWithin_run key w ops : forall n c,
  others key ops -> n + writes ops <= 9 -> holdsWithin key w n c ->
  JsMap.get key (fold_left (@step V) ops c) = Some w.
Proof.
  induction ops as [|o ops IH]; intros n c Ho Hn Hc.
  - simpl. now destruct Hc as (_ & H & _).
  - inversion Ho as [|? ? Hk Ho']; subst. simpl.
    destruct o as [k data timeout now|k now]; unfold writes in Hn;
      simpl in Hn, Hk |- *.
    + apply (IH (S n)); [assumption|unfold writes; lia|].
      apply holdsWithin_set; [assumption|lia|assumption].
    + apply (IH n); [assumption|unfold writes; lia|].
      now apply holdsWithin_get.
Qed.

Lemma holdsWithin_fresh c key data timeout now :
  wf c -> JsMap.get key c = None ->
  holdsWithin key (written data timeout now) 0
    (setCache c key data timeout now).
Proof.
  intros Hwf Hnew. split; [now apply wf_setCache|].
  split; [now apply get_setCache|].
  destruct Hwf as [Hnd Hsz]. rewrite setCache_cases by assumption.
  rewrite Hnew. destruct (Nat.ltb (JsMap.size c) 10).
  - now rewrite behind_last.
  - rewrite behind_last; [lia|].
    destruct c as [|[k0 e0] rest]; [reflexivity|]. simpl in *.
    destruct (eqb k0 key); [discriminate|assumption].
Qed.

End CacheMore.



(** X21. Reading a key changes nothing for the other keys and never adds
    an entry; reading a key that is not in the table returns [null] and
    leaves the table as it is, and so does a read that returns a value. *)
Theorem getCache_frame (V : Type) (c : Cache.t V) (key : jsstring) (now : Z) :
  let r := getCache c key now in
  (forall key', key' <> key -> JsMap.get key' (snd r) = JsMap.get key' c) /\
  JsMap.size (snd r) <= JsMap.size c /\
  (JsMap.get key c = None -> r = (None, c)) /\
  (fst r <> None -> snd r = c).
Proof.
  cbv zeta. split; [intros; now apply getCache_other|].
  unfold getCache. destruct (JsMap.get key c) as [entry|].
  - destruct (Z.ltb _ _); simpl.
    + repeat split; try lia; congruence.
    + split; [apply size_delete_le|]. split; congruence.
  - simpl. repeat split; try lia; congruence.
Qed.

(** X22. An entry written under a key that was not in the table is still
    there, unchanged, after any calls about other keys of which at most
    nine are writes. *)
Theorem fresh_entry_survives (V : Type) (c : Cache.t V) (key : jsstring)
    (data : V) (timeout : option Z) (now : Z) (ops : list (op V)) :
  reachable c ->
  JsMap.get key c = None ->
  others key ops ->
  writes ops <= 9 ->
  JsMap.get key (fold_left (@step V) ops (setCache c key data timeout now))
  = Some (written data timeout now).
Proof.
  intros Hr Hnew Ho Hw.
  apply (@holdsWithin_run V key (written data timeout now) ops 0);
    [assumption|lia|].
  apply holdsWithin_fresh; [now apply reachable_wf|assumption].
Qed.

Lemma fresh_entry_survives_witness :
  JsMap.get (str "build_check")
    (fold_left (@step nat) nine_more
       (setCache (run fill) (str "build_check") 1 (Some 60000%Z) 10%Z))
  = Some (written 1 (Some 60000%Z) 10%Z).
Proof.
  apply (@fresh_entry_survives nat (run fill) (str "build_check") 1
           (Some 60000%Z) 10%Z nine_more).
  - apply run_reachable.
  - vm_compute. reflexivity.
  - unfold others, nine_more. cbn [seq flat_map app].
    repeat constructor; vm_compute; discriminate.
  - vm_compute. lia.
Defined.

(** X23. Writing a key again does not renew it: when the first key of a
    table of ten is overwritten and a new key is written next, the
    overwritten key is gone. *)
Theorem overwrite_does_not_renew (V : Type) (c : Cache.t V)
    (key newKey : jsstring) (d1 d2 : V) (t1 t2 : option Z) (n1 n2 : Z) :
  reachable c ->
  JsMap.size c = 10 ->
  JsMap.firstKey c = Some key ->
  JsMap.get newKey c = None ->
  let c1 := setCache c key d1 t1 n1 in
  JsMap.get key c1 = Some (written d1 t1 n1) /\
  JsMap.get key (setCache c1 newKey d2 t2 n2) = None.
Proof.
  intros Hr Hfull Hfirst Hnew. cbv zeta. apply reachable_wf in Hr.
  split; [now apply get_setCache|].
  pose proof (@wf_setCache V c key d1 t1 n1 Hr) as Hwf1.
  destruct Hr as [Hnd Hsz].
  destruct c as [|[k0 e0] rest]; [discriminate|].
  injection Hfirst as ->.
  assert (Hne : newKey <> key).
  { intros ->. simpl in Hnew. now rewrite eqb_refl in Hnew. }
  assert (E1 : setCache ((key, e0) :: rest) key d1 t1 n1
               = (key, written d1 t1 n1) :: rest).
  { rewrite setCache_cases by assumption. simpl. now rewrite eqb_refl. }
  rewrite E1 in *. destruct Hwf1 as [Hnd1 Hsz1].
  rewrite setCache_cases by assumption.
  simpl in Hnew |- *.
  assert (E : eqb key newKey = false) by (apply eqb_neq; congruence).
  rewrite E in *. rewrite Hnew.
  destruct (Nat.ltb_spec (S (JsMap.size rest)) 10) as [Hlt|_];
    [unfold JsMap.size in *; simpl in *; lia|].
  rewrite get_app_new by congruence.
  inversion Hnd as [|? ? Hk _]; subst. now apply get_None_keys.
Qed.

Lemma overwrite_does_not_renew_witness :
  let c1 := setCache (run fill) (ofZ 0) 100 None 20%Z in
  JsMap.get (ofZ 0) c1 = Some (written 100 None 20%Z) /\
  JsMap.get (ofZ 0) (setCache c1 (str "new") 7 None 21%Z) = None.
Proof.
  apply (@overwrite_does_not_renew nat (run fill) (ofZ 0) (str "new")
           100 7 None None 20%Z 21%Z).
  - apply run_reachable.
  - vm_compute. reflexivity.
  - vm_compute. reflexivity.
  - vm_compute. reflexivity.
Defined.

End CacheMore.
(* ================================================================== *)
(** * The monitoring session *)
(* ================================================================== *)

Module SessionLaws.
Import Facets Exn Monitor Session MonitorSpec SessionSpec.
Import JSFacts JsMapFacts CacheSpec CacheLaws ProbesMore.
Import Differ DifferSpec DiffSpec DifferLaws DifferMore.

Lemma detectStateChanges_same (Structure : Type) (s : Snapshot Structure) :
  NoDup (JsMap.keys (orEmpty (network s))) ->
  detectStateChanges s s = Ok [].
Proof.
  intros Hnd. rewrite detectStateChanges_processes. cbv zeta.
  rewrite processEvents_same_roles by (intros k; reflexivity).
  destruct (network s) as [n|]; cbn [orEmpty] in Hnd.
  - rewrite networkLoop_same by assumption. cbn [Exn.bind].
    now apply same_level.
  - cbn [Exn.bind]. now apply same_level.
Qed.

Section SessionLaws.
Variable Structure : Type.
Variable env : Env Structure.
Implicit Types (e : Engine Structure).




Lemma with_cache_same e : with_cache e (cache e) = e.
Proof. now destruct e. Qed.

(** [scan] reads the cache; what it returns when no valid entry is there
    comes from the probes. *)
Lemma scan_cases (env0 : Env Structure) e :
  scan env0 e
  = match Cache.getCache (cache e) (str "env_scan") (atLookup env0) with
    | (Some cached, c) => (Ok cached, with_cache e c)
    | (None, c) =>
        match probed env0 with
        | Err x => (Err x, with_cache e c)
        | Ok result =>
            (Ok result,
             with_cache e
               (Cache.setCache c (str "env_scan") result None (atStore env0)))
        end
    end.
Proof.
  unfold scan, probed. cbv zeta.
  destruct (Cache.getCache _ _ _) as [[cached|] c]; [reflexivity|].
  destruct (probes env0); reflexivity.
Qed.



(** X24. After a [scan] that found no valid cache entry and returned, a
    later [scan] whose cache lookup comes less than 5000 ms after the
    first one stored its result returns that same snapshot and leaves
    the engine alone, whatever the probes would find; from 5000 ms on it
    returns (or throws) what the probes deliver then. *)
Theorem scan_served_then_probed (env1 env2 : Env Structure) e s e1 :
  wf (cache e) ->
  fst (Cache.getCache (cache e) (str "env_scan") (atLookup env1)) = None ->
  scan env1 e = (Ok s, e1) ->
  ((atLookup env2 - atStore env1 < 5000)%Z -> scan env2 e1 = (Ok s, e1)) /\
  ((5000 <= atLookup env2 - atStore env1)%Z ->
   fst (scan env2 e1) = probed env2).
Proof.
  intros Hwf Hmiss H.
  assert (Hwf1 : wf (snd (Cache.getCache (cache e) (str "env_scan")
                            (atLookup env1)))) by now apply wf_getCache.
  unfold scan in H. rewrite scan_cases.
  destruct (Cache.getCache (cache e) _ _) as [[cached|] c];
    [discriminate|clear Hmiss]. cbn [snd] in Hwf1.
  destruct (probes env1) as [pr|x]; [|discriminate].
  injection H as <- <-.
  cbn [with_cache cache]. unfold Cache.getCache.
  rewrite (get_setCache _ _ _ _ Hwf1).
  cbn [written Cache.timeout Cache.timestamp Cache.data Cache.orElse].
  unfold Cache.orElse, Cache.cacheTimeout. cbn [Z.eqb].
  split; intros Ht.
  - destruct (Z.ltb_spec (atLookup env2 - atStore env1) 5000%Z); [|lia].
    f_equal.
  - destruct (Z.ltb_spec (atLookup env2 - atStore env1) 5000%Z); [lia|].
    now destruct (probed env2).
Qed.


(** X29. A run of the timer callback whose scan is served from the cache
    with the very snapshot that is the baseline emits nothing and leaves
    the engine as it is: within the cache timeout the monitor cannot see
    a change. *)
Theorem tick_served_from_cache atEvent e s :
  lastKnownState e = Some s ->
  fst (Cache.getCache (cache e) (str "env_scan") (atLookup env)) = Some s ->
  NoDup (JsMap.keys (orEmpty (Differ.network s))) ->
  tick env atEvent e = (e, []).
Proof.
  intros Hl Hhit Hnd. unfold tick. rewrite scan_cases.
  unfold Cache.getCache in *.
  destruct (JsMap.get (str "env_scan") (cache e)) as [entry|];
    [|discriminate].
  destruct (Z.ltb _ _); [|discriminate].
  cbn [fst] in Hhit. injection Hhit as Hhit. rewrite Hhit.
  rewrite with_cache_same, Hl, (@detectStateChanges_same _ _ Hnd).
  f_equal. destruct e; cbn in Hl. now rewrite Hl.
Qed.
End SessionLaws.

Lemma scan_served_then_probed_witness :
  exists s e1,
    scan calm (initial unit) = (Ok s, e1) /\
    scan soon e1 = (Ok s, e1) /\
    fst (scan later e1) = probed later.
Proof.
  destruct (scan calm (initial unit)) as [[s|x] e1] eqn:E;
    [|vm_compute in E; discriminate].
  exists s, e1. split; [reflexivity|]. split.
  - apply (@scan_served_then_probed unit calm soon (initial unit) s e1);
      [apply wf_new|reflexivity|exact E|vm_compute; reflexivity].
  - apply (@scan_served_then_probed unit calm later (initial unit) s e1);
      [apply wf_new|reflexivity|exact E|vm_compute; discriminate].
Defined.




Lemma tick_served_from_cache_witness :
  tick soon 3950 started_once = (started_once, []).
Proof.
  destruct (lastKnownState started_once) as [s|] eqn:E;
    [|vm_compute in E; discriminate].
  apply (@tick_served_from_cache unit soon 3950%Z started_once s E).
  - vm_compute in E. injection E as <-. vm_compute. reflexivity.
  - vm_compute in E. injection E as <-.
    repeat constructor; simpl; intuition discriminate.
Defined.
End SessionLaws.
(* ================================================================== *)
(** * Log chunks *)
(* ================================================================== *)

Module LogLaws.
Import Classifier LogWatch JSFacts.

Lemma splitOn_app sep a b : forall cur,
  splitOn sep cur (a ++ sep :: b) = splitOn sep cur a ++ splitOn sep [] b.
Proof.
  induction a as [|c a IH]; intros cur; cbn [app splitOn].
  - now rewrite N.eqb_refl.
  - destruct (N.eqb c sep); [|apply IH]. now rewrite IH.
Qed.

Lemma nonBlankLines_app a b :
  nonBlankLines (a ++ 10%N :: b) = nonBlankLines a ++ nonBlankLines b.
Proof.
  unfold nonBlankLines. now rewrite splitOn_app, filter_app.
Qed.

Lemma analyzeLines_shift source clock n lines : forall i,
  analyzeLines source clock (n + i) lines
  = analyzeLines source (fun j => clock (n + j)) i lines.
Proof.
  induction lines as [|line lines IH]; intros i; cbn [analyzeLines];
    [reflexivity|].
  f_equal. rewrite <- IH. f_equal. apply plus_n_Sm.
Qed.

Lemma analyzeLines_app source clock l1 l2 : forall i,
  analyzeLines source clock i (l1 ++ l2)
  = analyzeLines source clock i l1
    ++ analyzeLines source clock (List.length l1 + i) l2.
Proof.
  induction l1 as [|line l1 IH]; intros i; cbn [app analyzeLines].
  - reflexivity.
  - rewrite IH, <- app_assoc. do 3 f_equal.
    cbn [List.length]. now rewrite <- plus_n_Sm.
Qed.

(** X30. A chunk of log text gives the same events whether it is handed
    to [analyzeLogEntry] in one piece or in two pieces cut at a line
    break (the clock of the second piece going on where the first one
    stopped): the events of the first piece, then those of the second. *)
Theorem analyzeLogEntry_chunks (source a b : jsstring) (clock : nat -> Z) :
  analyzeLogEntry source (a ++ 10%N :: b) clock
  = analyzeLogEntry source a clock
    ++ analyzeLogEntry source b
         (fun i => clock (List.length (nonBlankLines a) + i)).
Proof.
  unfold analyzeLogEntry.
  rewrite nonBlankLines_app, analyzeLines_app, <- analyzeLines_shift.
  now rewrite Nat.add_0_r.
Qed.

End LogLaws.
